(** * The record reconciliation engine of [datasets.backends.base]

    A shallow embedding of the [Base] processor (src/datasets/backends/base.py):
    option declaration and validation, the lookup query builder, the
    create / update / upsert / delete dispatch, the merge of incoming data
    onto matched records and the save pipeline.

    Python dictionaries are finite maps from strings to dynamically typed
    values; exceptions are the left summand of a result; the storage backend
    and the logger are the two effects, threaded through a small monad that
    carries the backend state and emits a trace of events. *)

From Stdlib Require Import ZArith String Ascii.
From stdpp Require Import gmap strings list fin_maps pretty.

Set Warnings "-register-all,-clear-no-such-hyp".
Local Open Scope Z_scope.
Local Open Scope stdpp_scope.

(** ** Dynamically typed values *)

(** What a record field can hold: [None], booleans, integers, strings,
    lists and nested dictionaries. *)
Inductive value : Type :=
  | VNone
  | VBool (b : bool)
  | VInt (z : Z)
  | VStr (s : string)
  | VList (l : list value)
  | VDict (d : gmap string value).

(** A record (a [dictset]) is a dictionary from field names to values. *)
Abbreviation record := (gmap string value).

(** [not d] on a dictionary: true exactly when it has no key. *)
Definition dict_empty (d : record) : bool := bool_decide (size d = 0%nat).

(** Python truthiness, as used by [if x:]. *)
Definition truthy (v : value) : bool :=
  match v with
  | VNone => false
  | VBool b => b
  | VInt z => negb (z =? 0)
  | VStr s => negb (String.eqb s "")
  | VList l => negb (bool_decide (l = []))
  | VDict d => negb (dict_empty d)
  end.

(** [v in ['', None, []]], the emptiness test of [pop_empty]. *)
Definition is_blank (v : value) : bool :=
  match v with
  | VStr s => String.eqb s ""
  | VNone => true
  | VList [] => true
  | _ => false
  end.

(** [sub in s] on strings. *)
Fixpoint contains (sub s : string) : bool :=
  if String.prefix sub s then true
  else match s with
       | EmptyString => false
       | String _ s' => contains sub s'
       end.

(** [s.partition(sep)]: the text before the first [sep], [sep] itself when it
    occurs, and the text after it. *)
Fixpoint partition_from (sep : string) (before s : string) : string * string * string :=
  if String.prefix sep s
  then (before, sep, String.substring (String.length sep) (String.length s - String.length sep) s)
  else match s with
       | EmptyString => (before, EmptyString, EmptyString)
       | String c s' => partition_from sep (before +:+ String c EmptyString) s'
       end.

Definition partition (s sep : string) : string * string * string :=
  partition_from sep EmptyString s.

(** ['\n'.join(msg)]. *)
Definition newline : string := String (ascii_of_nat 10) EmptyString.

Fixpoint join (sep : string) (l : list string) : string :=
  match l with
  | [] => EmptyString
  | [x] => x
  | x :: rest => x +:+ sep +:+ join sep rest
  end.

(** ['%.Ns' % s]: the first [n] characters of [s]. *)
Definition truncate (n : nat) (s : string) : string := String.substring 0 n s.

(** ** Exceptions *)

Inductive exn : Type :=
  | DKeyError (msg : string)
  | DValueError (msg : string)
  | AttributeError (msg : string)
  | TypeError (msg : string)
  | BackendError (msg : string).

Inductive result (A : Type) : Type :=
  | Ok (a : A)
  | Raise (e : exn).
Arguments Ok {A} a.
Arguments Raise {A} e.

Definition rbind {A B} (r : result A) (f : A → result B) : result B :=
  match r with
  | Ok a => f a
  | Raise e => Raise e
  end.

Definition is_ok {A} (r : result A) : bool :=
  match r with Ok _ => true | Raise _ => false end.

#[global] Instance result_ret : MRet result := fun _ a => Ok a.
#[global] Instance result_bind : MBind result := fun _ _ f r => rbind r f.

(** ** External collaborators

    Functions of the packages the processor imports ([slovar], [prf.utils],
    [smurfs], [bson], [datetime], [pprint]).  Their code is not part of the
    repository; the processor is stated over any implementation of them. *)
Class Collaborators : Type := {
  (** [prf.utils.utils.typecast]: casts the leaves of a dictionary. *)
  typecast : record → record;
  (** [dictset.extract(fields)]: the sub-dictionary of the named fields. *)
  extract : record → list string → record;
  (** [dictset.flat()] and [dictset.unflat()]: dotted-path leaves and back. *)
  flat : record → record;
  unflat : record → record;
  (** [slovar.strings.split_strip]: a comma separated string to its parts. *)
  split_strip : string → list string;
  (** [smurfs.utils.normalize]. *)
  normalize : record → list string → value;
  (** [smurfs.gazelle.consolidate_sources] and [CONSOLIDATE_MODES]. *)
  consolidate_sources : value → value → string → value;
  CONSOLIDATE_MODES : string;
  (** [get_morpher(name)], applied to the settings: the records the
      transformer yields for a record. *)
  get_morpher : string → record → list record;
  (** Python's [==] on values. *)
  py_eq : value → value → bool;
  (** [str(x)] (the [%s] conversion) and [pprint.pformat]. *)
  str : value → string;
  pformat : value → string;
  (** The casts behind [dkdict.asstr], [asbool], [asint] and [aslist]. *)
  asstr : value → result string;
  asbool : value → result bool;
  asint : value → result Z;
  aslist : value → result (list string);
  (** [str(ObjectId())] and [datetime.today()], by the number of earlier calls. *)
  ObjectId : nat → string;
  today : nat → value
}.

(** ** The option set *)

(** The typed options a processor reads from [self.params].  An option
    declared with [allow_missing=True] is absent from the mapping when it was
    not configured ([None] here); [query], [extra] and [extra_options] are
    never cast. *)
Module P.
Record t : Type := mk {
  name : string;
  keep_ids : bool;
  overwrite : bool;
  flatten : bool;
  append_to : list string;
  append_to_set : list string;
  normalize : list string;
  fields : option (list string);
  pop_empty : list string;
  keep_source_logs : bool;
  dry_run : bool;
  log_size : nat;
  log_fields : list string;
  log_pretty : bool;
  fail_on_error : bool;
  show_diff : option (list string);
  op : string;
  op_params : string;
  skip_by : option (list string);
  transformer : option string;
  source_consolidation_mode : option string;
  backend : option string;
  ns : option string;
  query : option record;
  extra : option record;
  extra_options : option record
}.
End P.

(** The processor object: its options and the run-wide log context. *)
Record Base : Type := {
  params : P.t;
  job_log : record
}.

Inductive level : Type := DEBUG | INFO | WARNING.

(** ** Merging dictionaries *)

(** The keyword arguments of [update_with]. *)
Record merge_kw : Type := {
  kw_overwrite : bool;
  kw_append_to : list string;
  kw_append_to_set : list string;
  kw_flatten : bool
}.

(** [d.update_with(other)] with no keyword: everything from [other] wins. *)
Definition kw_defaults : merge_kw :=
  {| kw_overwrite := true; kw_append_to := []; kw_append_to_set := []; kw_flatten := false |}.

(** A value read as a sequence: a list is itself, anything else a singleton. *)
Definition as_seq (v : value) : list value :=
  match v with
  | VList l => l
  | _ => [v]
  end.

Section Merge.
Context `{Collaborators}.

(** The members of [l], each kept once, in order of first occurrence. *)
Definition dedup (l : list value) : list value :=
  foldl (fun acc x => if existsb (py_eq x) acc then acc else acc ++ [x]) [] l.

(** Modelled from the spec: the per-field policy of [dictset.update_with]
    (package [prf.utils], not in the repository) for a field [k] that both
    sides hold, following section 4.4, step 3: a field listed in
    [append_to] is concatenated, one listed in [append_to_set] is
    concatenated without repeats, any other field takes the incoming value
    when [overwrite] is true and keeps the target's value when it is false. *)
Definition merge_field (kw : merge_kw) (k : string) (old new : value) : value :=
  if bool_decide (k ∈ kw_append_to kw) then VList (as_seq old ++ as_seq new)
  else if bool_decide (k ∈ kw_append_to_set kw) then VList (dedup (as_seq old ++ as_seq new))
  else if kw_overwrite kw then new
  else old.

(** Modelled from the spec: [self.update_with(d, ...)] without [flatten]:
    a copy of [self] in which every field of [d] is merged, a field absent
    from [self] being taken from [d] as it is. *)
Definition update_plain (kw : merge_kw) (self d : record) : record :=
  map_imap (fun k v => Some (match self !! k with
                             | Some old => merge_field kw k old v
                             | None => v
                             end)) d ∪ self.

(** Modelled from the spec: [dictset.update_with]; with [flatten] both
    sides are merged as flattened dotted paths and the result unflattened. *)
Definition update_with (kw : merge_kw) (self d : record) : record :=
  if kw_flatten kw then unflat (update_plain kw (flat self) (flat d))
  else update_plain kw self d.
End Merge.

(** ** Declaring and validating options *)

(** How an option is declared: with no keyword (it is then required and must
    not be empty), with [default=d], or with [allow_missing=True]. *)
Inductive kwargs (T : Type) : Type :=
  | Required
  | Default (d : T)
  | AllowMissing.
Arguments Required {T}.
Arguments Default {T} d.
Arguments AllowMissing {T}.

(** A typed accessor of the parameter mapping: its cast and the value it
    writes back. *)
Record accessor (T : Type) : Type := {
  acc_cast : value → result T;
  acc_value : T → value
}.
Arguments acc_cast {T} a v.
Arguments acc_value {T} a t.

(** The construction state: the parameter mapping being cast in place and the
    class-level table [_operations] of the option names declared so far. *)
Definition decl_state : Type := record * gset string.

Section Options.
Context `{Collaborators}.

Definition as_str : accessor string := {| acc_cast := asstr; acc_value := VStr |}.
Definition as_bool : accessor bool := {| acc_cast := asbool; acc_value := VBool |}.
Definition as_int : accessor Z := {| acc_cast := asint; acc_value := VInt |}.
Definition as_list : accessor (list string) :=
  {| acc_cast := aslist; acc_value := fun l => VList (VStr <$> l) |}.

(** Modelled from the spec: a typed accessor call [params.asX(name, ...)] of
    [dkdict] (package [prf.utils], not in the repository), following
    section 4.1: a configured option is cast and written back, and, when
    [raise_on_empty] is set, refused if it is empty; an option that is not
    configured takes its default, stays absent under [allow_missing], and is
    an error otherwise. *)
Definition accessor_call {T} (a : accessor T) (name : string) (kw : kwargs T)
    (raise_on_empty : bool) (params : record) : result (option T * record) :=
  match params !! name with
  | Some v =>
      t ← acc_cast a v;
      if raise_on_empty && is_blank (acc_value a t)
      then Raise (DValueError ("`" +:+ name +:+ "` can not be empty"))
      else Ok (Some t, <[name := acc_value a t]> params)
  | None =>
      match kw with
      | Default d => Ok (Some d, <[name := acc_value a d]> params)
      | AllowMissing => Ok (None, params)
      | Required => Raise (DKeyError ("Missing key or invalid value for `" +:+ name +:+ "`"))
      end
  end.

(** [Base.define_op]: without a default the option must not be empty; the
    accessor named by [_type] is called and the option's name is recorded in
    [_operations]. *)
Definition define_op {T} (st : decl_state) (_type : accessor T) (name : string)
    (kw : kwargs T) : result (option T * decl_state) :=
  let raise_on_empty := match kw with Default _ => false | _ => true end in
  '(ret_val, params) ← accessor_call _type name kw raise_on_empty st.1;
  Ok (ret_val, (params, {[name]} ∪ st.2)).

(** [Base.validate_ops]: the keys of the mapping that are no declared
    option are an error, reported with their list. *)
Definition validate_ops (_operations : gset string) (params : record) : result unit :=
  let invalid_ops := dom params ∖ _operations in
  if decide (invalid_ops = ∅) then Ok tt
  else Raise (DKeyError ("Invalid operations " +:+ str (VList (VStr <$> elements invalid_ops)))).

(** The options as [__init__] declares them, in order (lines 57 to 83),
    with the three names it adds to [_operations] by hand. *)
Definition declare_ops (raw : record) (_operations : gset string)
    : result (P.t * decl_state) :=
  let st : decl_state := (raw, _operations) in
  '(name, st) ← define_op st as_str "name" Required;
  '(keep_ids, st) ← define_op st as_bool "keep_ids" (Default false);
  '(overwrite, st) ← define_op st as_bool "overwrite" (Default true);
  '(flatten, st) ← define_op st as_bool "flatten" (Default false);
  '(append_to, st) ← define_op st as_list "append_to" (Default []);
  '(append_to_set, st) ← define_op st as_list "append_to_set" (Default []);
  '(normalize, st) ← define_op st as_list "normalize" (Default []);
  '(fields, st) ← define_op st as_list "fields" AllowMissing;
  '(pop_empty, st) ← define_op st as_list "pop_empty" (Default []);
  '(keep_source_logs, st) ← define_op st as_bool "keep_source_logs" (Default false);
  '(dry_run, st) ← define_op st as_bool "dry_run" (Default false);
  '(log_size, st) ← define_op st as_int "log_size" (Default 256);
  '(log_fields, st) ← define_op st as_list "log_fields" (Default []);
  '(log_pretty, st) ← define_op st as_bool "log_pretty" (Default false);
  '(fail_on_error, st) ← define_op st as_bool "fail_on_error" (Default true);
  '(show_diff, st) ← define_op st as_list "show_diff" AllowMissing;
  '(op, st) ← define_op st as_str "op" Required;
  '(skip_by, st) ← define_op st as_list "skip_by" AllowMissing;
  '(transformer, st) ← define_op st as_str "transformer" AllowMissing;
  '(source_consolidation_mode, st) ← define_op st as_str "source_consolidation_mode" AllowMissing;
  '(backend, st) ← define_op st as_str "backend" AllowMissing;
  let st : decl_state := (st.1, {["query"]} ∪ ({["extra"]} ∪ ({["extra_options"]} ∪ st.2))) in
  '(ns, st) ← define_op st as_str "ns" AllowMissing;
  let st : decl_state := (<["ns" := from_option VStr VNone ns]> st.1, st.2) in
  Ok ({| P.name := default "" name;
         P.keep_ids := default false keep_ids;
         P.overwrite := default true overwrite;
         P.flatten := default false flatten;
         P.append_to := default [] append_to;
         P.append_to_set := default [] append_to_set;
         P.normalize := default [] normalize;
         P.fields := fields;
         P.pop_empty := default [] pop_empty;
         P.keep_source_logs := default false keep_source_logs;
         P.dry_run := default false dry_run;
         P.log_size := Z.to_nat (default 256 log_size);
         P.log_fields := default [] log_fields;
         P.log_pretty := default false log_pretty;
         P.fail_on_error := default true fail_on_error;
         P.show_diff := show_diff;
         P.op := default "" op;
         P.op_params := "";
         P.skip_by := skip_by;
         P.transformer := transformer;
         P.source_consolidation_mode := source_consolidation_mode;
         P.backend := backend;
         P.ns := ns;
         P.query := match st.1 !! "query" with Some (VDict q) => Some q | _ => None end;
         P.extra := match st.1 !! "extra" with Some (VDict q) => Some q | _ => None end;
         P.extra_options :=
           match st.1 !! "extra_options" with Some (VDict q) => Some q | _ => None end |},
      st).

(** The warnings [__init__] ends with: a dotted name in [append_to] or
    [append_to_set] while [flatten] is off. *)
Definition nested_warnings (p : P.t) : list (level * string) :=
  if (bool_decide (P.append_to_set p ≠ []) || bool_decide (P.append_to p ≠ []))
     && negb (P.flatten p)
  then (fun kk => (WARNING, "`" +:+ kk
                   +:+ "` for append_to/appent_to_set is nested but `flatten` is not set"))
         <$> filter (fun kk => contains "." kk = true) (P.append_to_set p ++ P.append_to p)
  else [].

(** [Base.__init__]: declare the options, validate the keys of the mapping
    against the declared names, split [op] at its first colon into the
    operation and its key fields, and keep the job log.  The result is the
    processor, the class-level [_operations] table as it stands afterwards,
    and the warnings logged. *)
Definition init (raw : record) (job_log : option record) (_operations : gset string)
    : result (Base * gset string * list (level * string)) :=
  '(p, st) ← declare_ops raw _operations;
  _ ← validate_ops st.2 st.1;
  let '(op, _, op_params) := partition (P.op p) ":" in
  let p := {| P.name := P.name p; P.keep_ids := P.keep_ids p; P.overwrite := P.overwrite p;
              P.flatten := P.flatten p; P.append_to := P.append_to p;
              P.append_to_set := P.append_to_set p; P.normalize := P.normalize p;
              P.fields := P.fields p; P.pop_empty := P.pop_empty p;
              P.keep_source_logs := P.keep_source_logs p; P.dry_run := P.dry_run p;
              P.log_size := P.log_size p; P.log_fields := P.log_fields p;
              P.log_pretty := P.log_pretty p; P.fail_on_error := P.fail_on_error p;
              P.show_diff := P.show_diff p; P.op := op; P.op_params := op_params;
              P.skip_by := P.skip_by p; P.transformer := P.transformer p;
              P.source_consolidation_mode := P.source_consolidation_mode p;
              P.backend := P.backend p; P.ns := P.ns p; P.query := P.query p;
              P.extra := P.extra p; P.extra_options := P.extra_options p |} in
  Ok ({| params := p; job_log := default ∅ job_log |}, st.2, nested_warnings p).
End Options.

(** The option names [__init__] declares, last declared first. *)
Definition option_names : gset string :=
  {["ns"]} ∪ ({["query"]} ∪ ({["extra"]} ∪ ({["extra_options"]} ∪
  ({["backend"]} ∪ ({["source_consolidation_mode"]} ∪ ({["transformer"]} ∪
  ({["skip_by"]} ∪ ({["op"]} ∪ ({["show_diff"]} ∪ ({["fail_on_error"]} ∪
  ({["log_pretty"]} ∪ ({["log_fields"]} ∪ ({["log_size"]} ∪ ({["dry_run"]} ∪
  ({["keep_source_logs"]} ∪ ({["pop_empty"]} ∪ ({["fields"]} ∪ ({["normalize"]} ∪
  ({["append_to_set"]} ∪ ({["append_to"]} ∪ ({["flatten"]} ∪ ({["overwrite"]} ∪
  ({["keep_ids"]} ∪ ({["name"]} ∪ ∅)))))))))))))))))))))))).

(** The construction state after some declarations: the table holds the
    names declared on top of what it held, and the keys of the mapping that
    are not in the table are the raw keys that are not in it. *)
Definition declared_so_far (raw : record) (ops0 names : gset string) (st : decl_state)
    : Prop :=
  st.2 = names ∪ ops0 ∧ dom st.1 ∖ st.2 = dom raw ∖ (names ∪ ops0).

(** One declaration in the proof of the construction invariant: the call
    succeeded, and [step] carries the invariant [Hinv] over it. *)
Ltac declare_step Hd Hinv step :=
  match type of Hd with
  | match define_op ?st ?a ?n ?kw with _ => _ end = Ok _ =>
      let E := fresh "E" in
      destruct (define_op st a n kw) as [[? ?]|?] eqn:E; [|discriminate Hd];
      eapply step in E; [|exact Hinv];
      clear Hinv; rename E into Hinv;
      cbv beta iota zeta in Hd
  end.

(** ** The storage backend and the effect monad *)

(** What [klass.get_collection] answers: the matching objects, or their
    number when the query carries [_count]. *)
Inductive collection (O : Type) : Type :=
  | Count (n : nat)
  | Objects (l : list O).
Arguments Count {O} n.
Arguments Objects {O} l.

(** The document class [self.klass] a processor is bound to, over a backend
    state [B] and document objects [O]; [_save] is the persist primitive a
    concrete processor supplies ([Base._save] itself is abstract). *)
Class Backend (B O : Type) : Type := {
  get_collection : record → B → result (collection O);
  klass : O;
  klass_name : string;
  to_dict : O → record;
  _save : O → record → B → result (value * B);
  obj_delete : O → B → result B;
  repr : O → string
}.

(** What a run leaves behind besides the backend state: log lines and the
    calls of the two mutating primitives. *)
Inductive event (O : Type) : Type :=
  | ELog (lv : level) (msg : string)
  | EPersist (o : O) (d : record)
  | EDelete (o : O).
Arguments ELog {O} lv msg.
Arguments EPersist {O} o d.
Arguments EDelete {O} o.

(** The backend state together with the number of identifiers and
    timestamps drawn so far. *)
Record world (B : Type) : Type := {
  store : B;
  clock : nat
}.
Arguments store {B} w.
Arguments clock {B} w.

(** A computation: from a world to a result or an exception, the world
    afterwards and the events emitted, oldest first. *)
Definition M (B O A : Type) : Type := world B → result A * world B * list (event O).

Definition M_ret {B O A} (a : A) : M B O A := fun w => (Ok a, w, []).

Definition M_bind {B O A A'} (f : A → M B O A') (m : M B O A) : M B O A' :=
  fun w =>
    match m w with
    | (Ok a, w1, t1) => let '(r, w2, t2) := f a w1 in (r, w2, t1 ++ t2)
    | (Raise e, w1, t1) => (Raise e, w1, t1)
    end.

#[global] Instance M_mret {B O} : MRet (M B O) := fun _ a => M_ret a.
#[global] Instance M_mbind {B O} : MBind (M B O) := fun _ _ f m => M_bind f m.

(** [raise e]. *)
Definition throw {B O A} (e : exn) : M B O A := fun w => (Raise e, w, []).

(** A step that only computes: its exception, if any, is raised. *)
Definition lift {B O A} (r : result A) : M B O A := fun w => (r, w, []).

(** [logger.debug], [logger.info], [logger.warning]. *)
Definition log {B O} (lv : level) (msg : string) : M B O unit :=
  fun w => (Ok tt, w, [ELog lv msg]).

(** [try: body finally: fin]: [fin] runs on every way out of [body], whose
    result or exception stands unless [fin] raises itself. *)
Definition try_finally {B O A} (body : M B O A) (fin : M B O unit) : M B O A :=
  fun w =>
    let '(r, w1, t1) := body w in
    let '(rf, w2, t2) := fin w1 in
    (match rf with Ok _ => r | Raise e => Raise e end, w2, t1 ++ t2).

(** The objects a trace persisted, with the data each was persisted with. *)
Definition persisted {O} (t : list (event O)) : list (O * record) :=
  omap (fun e => match e with EPersist o d => Some (o, d) | _ => None end) t.

(** The objects a trace deleted. *)
Definition deleted {O} (t : list (event O)) : list O :=
  omap (fun e => match e with EDelete o => Some o | _ => None end) t.

(** The messages a trace logged at a level. *)
Definition logged {O} (lv : level) (t : list (event O)) : list string :=
  omap (fun e => match e with
                 | ELog lv' msg => match lv, lv' with
                                   | DEBUG, DEBUG | INFO, INFO | WARNING, WARNING => Some msg
                                   | _, _ => None
                                   end
                 | _ => None
                 end) t.

(** A computation is quiet when it leaves the backend state as it found it
    and calls neither the persist nor the delete primitive. *)
Definition quiet {B O A} (m : M B O A) : Prop :=
  ∀ w, store (m w).1.2 = store w ∧ persisted (m w).2 = [] ∧ deleted (m w).2 = [].

(** A computation that only logs: it succeeds, leaves the world alone and
    calls no mutating primitive. *)
Definition logs_only {B O} (m : M B O unit) : Prop :=
  ∀ w, ∃ t, m w = (Ok tt, w, t) ∧ persisted t = [] ∧ deleted t = [].

(** Unfolding the operations of the monad. *)
Ltac run :=
  unfold mbind, mret, M_mbind, M_mret, M_bind, M_ret, lift, log, throw, try_finally.

(** [{log: ..., source: ...}], the metadata passed alongside the data. *)
Record Meta : Type := {
  meta_log : record;
  meta_source : value
}.

(** [dictset(v)] for the value of a [log] field: a dictionary is taken as it
    is, an empty string or list gives the empty dictionary, and [None], a
    number or a boolean is a [TypeError]; other sequences are not modelled
    and are refused as well. *)
Definition dictset (v : value) : result record :=
  match v with
  | VDict d => Ok d
  | VStr EmptyString => Ok ∅
  | VList [] => Ok ∅
  | _ => Raise (TypeError "cannot convert dictionary update sequence")
  end.

(** The field names a value lists: a string is split at commas by the
    caller, a list gives its string members. *)
Definition names_of (v : value) : list string :=
  match v with
  | VList l => omap (fun x => match x with VStr s => Some s | _ => None end) l
  | _ => []
  end.

Definition tab : string := String (ascii_of_nat 9) EmptyString.

(** ** The processor *)

Section Engine.
Context `{Collaborators} {B O : Type} `{Backend B O}.
Variable self : Base.

#[local] Abbreviation p := (params self).
#[local] Abbreviation Run := (M B O).

(** [for x in l: body(x)]. *)
Fixpoint for_each {A} (l : list A) (body : A → Run unit) : Run unit :=
  match l with
  | [] => mret tt
  | x :: rest => _ ← body x; for_each rest body
  end.

(** A call of [ObjectId()] or [datetime.today()]: its rank among them. *)
Definition tick : Run nat :=
  fun w => (Ok (clock w), {| store := store w; clock := S (clock w) |}, []).

(** [len(objects)], [if objects:], iteration and [%s] on a lookup result. *)
Definition len (c : collection O) : result nat :=
  match c with
  | Objects l => Ok (length l)
  | Count _ => Raise (TypeError "object of type 'int' has no len()")
  end.

Definition found (c : collection O) : bool :=
  match c with
  | Objects l => negb (bool_decide (length l = 0%nat))
  | Count n => negb (bool_decide (n = 0%nat))
  end.

Definition items (c : collection O) : result (list O) :=
  match c with
  | Objects l => Ok l
  | Count _ => Raise (TypeError "'int' object is not iterable")
  end.

Definition show_collection (c : collection O) : string :=
  match c with
  | Objects l => "[" +:+ join ", " (repr <$> l) +:+ "]"
  | Count n => str (VInt (Z.of_nat n))
  end.

(** [Base.log_data_format]. *)
Definition log_data_format (query : option value) (data : option record) : string :=
  let msg : list string := [] in
  let msg :=
    match query with
    | Some q => if truthy q then msg ++ ["QUERY: `" +:+ str q +:+ "`"] else msg
    | None => msg
    end in
  let msg :=
    match data with
    | Some d =>
        if negb (dict_empty d) then
          let _data := extract d (P.log_fields p) in
          let _fields := VList (VStr <$> (map_to_list d).*1) in
          let shown := if P.log_pretty p then pformat (VDict _data) else str (VDict _data) in
          msg ++ ["DATA keys: `" +:+ str _fields +:+ "`"]
              ++ (if bool_decide (P.log_fields p ≠ [])
                  then ["LOG KEYS: `" +:+ str (VList (VStr <$> P.log_fields p)) +:+ "`"]
                  else [])
              ++ ["DATA dict: " +:+ truncate (P.log_size p) shown]
        else msg
    | None => msg
    end in
  join newline msg.

(** [Base.run_transformer]: the first record the configured transformer
    yields, wrapped under the alias after [__as__] if there is one; the
    data itself without a transformer or when nothing is yielded. *)
Definition run_transformer (data : record) : record :=
  match P.transformer p with
  | Some t =>
      let '(trans, _, trans_as) := partition t "__as__" in
      match get_morpher trans data with
      | _d :: _ => if negb (String.eqb trans_as "") then {[trans_as := VDict _d]} else _d
      | [] => data
      end
  | None => data
  end.

(** [Base.extract_log]: the [log] field is popped off the data and the job
    log merged over it.  The data without the field is returned as well. *)
Definition extract_log (data : record) : result (record * record) :=
  l ← dictset (default (VDict ∅) (data !! "log"));
  Ok (update_with kw_defaults l (job_log self), delete "log" data).

(** [Base.extract_meta]. *)
Definition extract_meta (data : record) : result (Meta * record) :=
  '(log, data) ← extract_log data;
  let source := default (VDict ∅) (data !! "source") in
  Ok ({| meta_log := log; meta_source := source |}, data).

(** The [pop_empty] loop of [pre_save]. *)
Definition pop_empties (data : record) : record :=
  foldl (fun data ekey =>
           match data !! ekey with
           | Some v => if is_blank v then delete ekey data else data
           | None => data
           end) data (P.pop_empty p).

(** [Base.pre_save].  [logs] is the list held by the data (an empty one is
    put there when the field is missing); the entry is inserted at its
    front, which fails on anything that is no list. *)
Definition pre_save (data : record) (meta : Meta) : result record :=
  let data := run_transformer data in
  match default (VList []) (data !! "logs") with
  | VList old =>
      let logs := VList (VDict (meta_log meta) :: old) in
      let data := <["logs" := logs]> data in
      let data := if bool_decide (P.normalize p ≠ [])
                  then <["n" := normalize data (P.normalize p)]> data
                  else data in
      let data := match P.fields p with
                  | Some fields => typecast (extract data fields)
                  | None => data
                  end in
      let data := <["logs" := logs]> data in
      Ok (pop_empties data)
  | _ => Raise (AttributeError "object has no attribute 'insert'")
  end.

(** The three calls into the backend: the lookup, which reads the state, and
    the persist and delete primitives, which may change it and whose call is
    recorded in the trace whether it succeeds or raises. *)
Definition lookup (q : record) : Run (collection O) :=
  fun w => (get_collection q (store w), w, []).

Definition persist (obj : O) (data : record) : Run value :=
  fun w =>
    match _save obj data (store w) with
    | Ok (r, b) => (Ok r, {| store := b; clock := clock w |}, [EPersist obj data])
    | Raise e => (Raise e, w, [EPersist obj data])
    end.

Definition remove (obj : O) : Run value :=
  fun w =>
    match obj_delete obj (store w) with
    | Ok b => (Ok VNone, {| store := b; clock := clock w |}, [EDelete obj])
    | Raise e => (Raise e, w, [EDelete obj])
    end.

(** [Base.save]. *)
Definition save (obj : O) (data : record) (meta : Meta) : Run value :=
  if dict_empty data then
    _ ← log DEBUG "NOTHING TO SAVE";
    mret VNone
  else
    _data ← lift (pre_save data meta);
    try_finally
      (if P.dry_run p then
         _ ← log WARNING "DRY RUN";
         mret (VDict _data)
       else persist obj _data)
      (log DEBUG ("SAVED " +:+ repr obj +:+ " with data:" +:+ newline
                  +:+ log_data_format None (Some _data))).

(** The loop of [build_query_params] (lines 330 to 337): each key field is
    extracted from the data, flattened when its name is dotted, cast, and
    written over what the query holds. *)
Definition extract_query (data : record) (_keys : list string) : record :=
  foldl (fun query _k =>
           if contains "." _k
           then typecast (flat (extract data [_k])) ∪ query
           else typecast (extract data [_k]) ∪ query) ∅ _keys.

(** [Base.build_query_params]. *)
Definition build_query_params (data : record) (_keys : list string) : result record :=
  let query := extract_query data _keys in
  if dict_empty query then
    if bool_decide (_keys = []) then Raise (DValueError "empty op params")
    else Raise (DValueError ("update query is empty for:" +:+ newline
                             +:+ log_data_format (Some (VList (VStr <$> _keys))) (Some data)))
  else Ok (<["_limit" := VInt (-1)]> query).

(** [Base.diff]. *)
Definition diff (d1 d2 : record) (keys : list string) : Run unit :=
  let _d1 := extract d1 keys in
  let differing :=
    filter (fun kv => negb (bool_decide (kv.1 ∈ ["id"; "logs"]))
                      && negb (py_eq kv.2 (default VNone (d2 !! kv.1))) = true)
           (map_to_list _d1) in
  _ ← for_each differing (fun kv =>
        log INFO ("DIFF:" +:+ newline +:+ tab +:+ "`" +:+ kv.1 +:+ "`:`" +:+ str kv.2
                  +:+ "`" +:+ newline +:+ tab +:+ "`" +:+ kv.1 +:+ "`:`"
                  +:+ str (default VNone (d2 !! kv.1)) +:+ "`"));
  if bool_decide (differing = []) then log INFO "DIFF: target contains source data"
  else mret tt.

(** [Base.log_not_found], as [process] calls it (no message of its own). *)
Definition not_found_message (params : record) (data : record) : string :=
  "NOT FOUND in <" +:+ klass_name +:+ "> with:" +:+ newline
  +:+ log_data_format (Some (VDict params)) (Some data).

Definition log_not_found (params : record) (data : record) : Run unit :=
  log WARNING (not_found_message params data).

(** The keyword arguments [update_objects] passes to [update_with]. *)
Definition merge_kw_of (q : P.t) : merge_kw :=
  {| kw_overwrite := P.overwrite q;
     kw_append_to := P.append_to q;
     kw_append_to_set := P.append_to_set q;
     kw_flatten := P.flatten q |}.

(** The renaming step of [create] (lines 165 and 166): an [id] becomes
    [original_id] unless ids are kept or an [original_id] is there already. *)
Definition rename_id (data : record) : record :=
  match data !! "id" with
  | Some v =>
      if negb (P.keep_ids p) && negb (bool_decide (is_Some (data !! "original_id")))
      then <["original_id" := v]> (delete "id" data)
      else data
  | None => data
  end.

(** The query of the [skip_by] lookup of [create]. *)
Definition skip_query (data : record) (keys : list string) : result record :=
  _params ← build_query_params data keys;
  Ok (<["_count" := VInt 1]> _params).

(** [Base.create].  The metadata is extracted while the arguments of [save]
    are evaluated, so [save] receives the data without its [log] field. *)
Definition create (data : record) : Run unit :=
  skip ← match P.skip_by p with
         | Some keys =>
             _params ← lift (skip_query data keys);
             exists_ ← lookup _params;
             if found exists_ then
               _ ← log DEBUG ("SKIP creation: " +:+ show_collection exists_
                              +:+ " objects exists with: " +:+ str (VDict _params));
               mret true
             else mret false
         | None => mret false
         end;
  if skip : bool then mret tt
  else
    let data := rename_id data in
    let obj := klass in
    '(meta, data) ← lift (extract_meta data);
    _ ← save obj data meta;
    log DEBUG ("CREATED " +:+ repr obj).

(** [Base.objects_to_update]. *)
Definition objects_to_update (keys : list string) (data : record)
    : Run (record * collection O) :=
  _ ← for_each keys (fun kk =>
        if contains "." kk && negb (P.flatten p)
        then log WARNING ("Nested key `" +:+ kk +:+ "`? Consider using flatten=1")
        else mret tt);
  _params ← lift (build_query_params data keys);
  let _params := match P.query p with
                 | Some q => update_with kw_defaults _params (typecast q)
                 | None => _params
                 end in
  objects ← lookup _params;
  mret (_params, objects).

(** The record the loop of [update_objects] hands to [save] for a matched
    object (lines 203 to 214): the incoming data merged onto the object's
    snapshot, with the consolidated source when a consolidation mode is
    configured and yields one. *)
Definition merged (data : record) (meta : Meta) (each : O) : record :=
  let each_d := to_dict each in
  let new_data := update_with (merge_kw_of p) each_d data in
  match P.source_consolidation_mode p with
  | Some mode =>
      let new_source :=
        consolidate_sources (default (VDict ∅) (each_d !! "source")) (meta_source meta) mode in
      if truthy new_source then <["source" := new_source]> new_data else new_data
  | None => new_data
  end.

(** The body of the loop of [update_objects] (lines 197 to 223): the
    diagnostic diff, the merge, the warning when a source comes in and no
    consolidation mode is set, the save. *)
Definition update_each (_params data : record) (meta : Meta) (each : O) : Run unit :=
  let each_d := to_dict each in
  _ ← match P.show_diff p with
      | Some keys => diff data each_d keys
      | None => mret tt
      end;
  let new_data := merged data meta each in
  _ ← match P.source_consolidation_mode p with
      | Some _ => mret tt
      | None =>
          if truthy (meta_source meta)
          then log WARNING
                 ("SKIP source consolidation. Reason: `source_consolidation_mode` has not been set. Choices are: "
                  +:+ CONSOLIDATE_MODES +:+ "." +:+ newline +:+ "DATA:"
                  +:+ str (meta_source meta))
          else mret tt
      end;
  _ ← save each new_data meta;
  log DEBUG ("UPDATED " +:+ repr each +:+ " with:" +:+ newline
             +:+ log_data_format (Some (VDict _params)) None).

(** [Base.update_objects].  Records are values here.  In the source the
    list under [logs] is inserted into in place by [pre_save]; it can be the
    incoming data's own list only when [keep_source_logs] keeps that field,
    and a later match then finds the entries inserted for the earlier ones
    behind the new head.  With the field dropped, which is the default, every
    turn of the loop sees the same incoming data, as below. *)
Definition update_objects (_params : record) (objects : collection O) (data : record)
    : Run nat :=
  update_count ← lift (len objects);
  _ ← (if bool_decide (1 < update_count)%nat
       then log WARNING ("Multiple (" +:+ str (VInt (Z.of_nat update_count))
                         +:+ ") updates for" +:+ newline
                         +:+ log_data_format (Some (VDict _params)) None)
       else mret tt);
  let data := if P.keep_source_logs p then data else delete "logs" data in
  '(meta, data) ← lift (extract_meta data);
  each_list ← lift (items objects);
  _ ← for_each each_list (update_each _params data meta);
  mret update_count.

(** [Base.delete]. *)
Definition delete_obj (obj : O) : Run value :=
  let _d := to_dict obj in
  try_finally
    (if P.dry_run p then
       _ ← log WARNING "DRY RUN";
       mret (VDict _d)
     else remove obj)
    (log DEBUG ("DELETED " +:+ repr obj +:+ " with data:" +:+ newline
                +:+ log_data_format None (Some _d))).

(** The keyword arguments [add_extra] reads from [extra_options]; a name
    [update_with] does not take is a [TypeError]. *)
Definition merge_kw_of_options (opts : record) : result merge_kw :=
  let names v := match v with VStr s => [s] | _ => names_of v end in
  if decide (dom opts ⊆ ({["overwrite"; "append_to"; "append_to_set"; "flatten"]} : gset string))
  then Ok {| kw_overwrite := from_option truthy true (opts !! "overwrite");
             kw_append_to := from_option names [] (opts !! "append_to");
             kw_append_to_set := from_option names [] (opts !! "append_to_set");
             kw_flatten := from_option truthy false (opts !! "flatten") |}
  else Raise (TypeError "update_with() got an unexpected keyword argument").

(** The sentinel loop of [add_extra]: [__gid__] becomes a fresh identifier,
    [__today__] the current time. *)
Fixpoint resolve_sentinels (kvs : list (string * value)) (extra_f : record) : Run record :=
  match kvs with
  | [] => mret extra_f
  | (k, v) :: rest =>
      v' ← match v with
           | VStr s =>
               if String.eqb s "__gid__" then n ← tick; mret (VStr (ObjectId n))
               else if String.eqb s "__today__" then n ← tick; mret (today n)
               else mret v
           | _ => mret v
           end;
      resolve_sentinels rest (<[k := v']> extra_f)
  end.

(** [Base.add_extra]. *)
Definition add_extra (data : record) : Run record :=
  match P.extra p with
  | None => mret data
  | Some extra =>
      let extra_opts := default ∅ (P.extra_options p) in
      let extra_f := flat extra in
      let extra_f :=
        match extra_f !! "_transformer" with
        | Some t =>
            let fields := match t with VStr s => split_strip s | _ => names_of t end in
            flat (extract data fields) ∪ delete "_transformer" extra_f
        | None => extra_f
        end in
      extra_f ← resolve_sentinels (map_to_list extra_f) extra_f;
      kw ← lift (merge_kw_of_options extra_opts);
      mret (unflat (update_with kw (flat data) extra_f))
  end.

(** The key fields of the operation: [op_params] split at commas, or nothing
    when it is empty. *)
Definition op_keys : list string :=
  if String.eqb (P.op_params p) "" then [] else split_strip (P.op_params p).

(** The dispatch of [process] (lines 113 to 154), on the data with its extra
    fields added. *)
Definition dispatch (data : record) : Run unit :=
  let _op := P.op p in
  let _op_params := op_keys in
  if bool_decide (_op ∈ ["update"; "upsert"; "delete"]) && bool_decide (_op_params = [])
  then throw (DValueError ("missing op params for `" +:+ _op +:+ "` operation"))
  else if String.eqb _op "create" then create data
  else if String.eqb _op "update" then
    '(params, objects) ← objects_to_update _op_params data;
    if negb (found objects) then log_not_found params data
    else
      _ ← update_objects params objects data;
      mret tt
  else if String.eqb _op "upsert" then
    '(params, objects) ← objects_to_update _op_params data;
    if found objects then
      _ ← update_objects params objects data;
      mret tt
    else create data
  else if String.eqb _op "delete" then
    '(params, objects) ← objects_to_update _op_params data;
    if negb (found objects) then log_not_found params data
    else
      objs ← lift (items objects);
      _ ← for_each objs (fun obj => _ ← delete_obj obj; mret tt);
      n ← lift (len objects);
      log DEBUG ("DELETED " +:+ str (VInt (Z.of_nat n)) +:+ " objects by:" +:+ newline
                 +:+ log_data_format (Some (VList (VStr <$> _op_params))) None)
  else throw (DKeyError "Must provide `op` param. e.g. op=update:key1,key2").

(** [Base.process]. *)
Definition process (data : record) : Run unit :=
  data ← add_extra data;
  dispatch data.

(** [Base.process_many]. *)
Definition process_many (dataset : list record) : Run unit :=
  for_each dataset process.

(** ** Reading a run *)

(** The records a trace persisted all carry, at the front of their [logs],
    the entry extracted from [data]. *)
Definition stamped (data : record) (t : list (event O)) : Prop :=
  Forall (fun od => ∃ log d' old,
            extract_log data = Ok (log, d')
            ∧ od.2 !! "logs" = Some (VList (VDict log :: old)))
         (persisted t).

Definition stamps {A} (data : record) (m : M B O A) : Prop :=
  ∀ w, stamped data (m w).2.

(** The line logged after each update, and the warning for several
    matches. *)
Definition updated_line (q : record) (each : O) : event O :=
  ELog DEBUG ("UPDATED " +:+ repr each +:+ " with:" +:+ newline
              +:+ log_data_format (Some (VDict q)) None).

Definition multiple_line (q : record) (n : nat) : event O :=
  ELog WARNING ("Multiple (" +:+ str (VInt (Z.of_nat n)) +:+ ") updates for" +:+ newline
                +:+ log_data_format (Some (VDict q)) None).

(** The matched objects whose merged record is not empty: those [save]
    goes on to persist. *)
Definition to_save (data : record) (meta : Meta) (l : list O) : list O :=
  filter (fun each => dict_empty (merged data meta each) = false) l.

End Engine.

(** ** A concrete setting

    Simple stand-ins for the collaborators and an in-memory backend, on which
    the processor runs by computation; the examples below are evaluated on
    them. *)
Module Demo.

(** Splitting at commas, empty parts dropped. *)
Fixpoint split_comma (acc s : string) : list string :=
  match s with
  | EmptyString => [acc]
  | String c s' =>
      if Ascii.eqb c ","%char then acc :: split_comma EmptyString s'
      else split_comma (acc +:+ String c EmptyString) s'
  end.

Definition split (s : string) : list string :=
  filter (fun x => x ≠ EmptyString) (split_comma EmptyString s).

(** Equality of scalars; lists and dictionaries compare by length and size. *)
Definition eqv (a b : value) : bool :=
  match a, b with
  | VNone, VNone => true
  | VBool x, VBool y => Bool.eqb x y
  | VInt x, VInt y => (x =? y)%Z
  | VStr x, VStr y => String.eqb x y
  | VList x, VList y => bool_decide (length x = length y)
  | VDict x, VDict y => bool_decide (size x = size y)
  | _, _ => false
  end.

Fixpoint show (v : value) : string :=
  match v with
  | VNone => "None"
  | VBool true => "True"
  | VBool false => "False"
  | VInt z => pretty z
  | VStr s => s
  | VList l => "[" +:+ join ", " (map show l) +:+ "]"
  | VDict d => "{" +:+ pretty (size d) +:+ " keys}"
  end.

Definition collaborators : Collaborators := {|
  typecast := fun d => d;
  extract := fun d fields => filter (fun kv => kv.1 ∈ fields) d;
  flat := fun d => d;
  unflat := fun d => d;
  split_strip := split;
  normalize := fun _ _ => VNone;
  consolidate_sources := fun _ new _ => new;
  CONSOLIDATE_MODES := "[]";
  get_morpher := fun _ d => [d];
  py_eq := eqv;
  str := show;
  pformat := show;
  asstr := fun v => match v with VStr s => Ok s | _ => Raise (DValueError "not a string") end;
  asbool := fun v => match v with VBool b => Ok b | _ => Raise (DValueError "not a boolean") end;
  asint := fun v => match v with VInt z => Ok z | _ => Raise (DValueError "not an integer") end;
  aslist := fun v => match v with
                     | VStr s => Ok (split s)
                     | VList l => Ok (names_of (VList l))
                     | _ => Raise (DValueError "not a list")
                     end;
  ObjectId := fun n => "oid" +:+ pretty n;
  today := fun n => VInt (Z.of_nat n)
|}.

(** A document: its identifier once stored, and its fields. *)
Definition doc : Type := option nat * record.

(** The store: documents by identifier. *)
Definition db : Type := gmap nat record.

(** A document matches a query when it holds every queried field that is no
    marker (a marker starts with an underscore) with an equal value. *)
Definition matches (q d : record) : bool :=
  forallb (fun kv => String.prefix "_" kv.1
                     || from_option (eqv kv.2) false (d !! kv.1)) (map_to_list q).

Definition find (q : record) (b : db) : list doc :=
  omap (fun kv => if matches q kv.2 then Some (Some kv.1, kv.2) else None) (map_to_list b).

Definition backend : Backend db doc := {|
  get_collection := fun q b =>
    Ok (if bool_decide (is_Some (q !! "_count")) then Count (length (find q b))
        else Objects (find q b));
  klass := (None, ∅);
  klass_name := "Demo";
  to_dict := fun o => o.2;
  _save := fun o d b =>
    Ok (VNone, <[default (fresh (dom b)) o.1 := d]> b);
  obj_delete := fun o b =>
    match o.1 with
    | Some i => Ok (delete i b)
    | None => Raise (BackendError "not stored")
    end;
  repr := fun o => from_option (fun i => "<doc " +:+ pretty i +:+ ">") "<doc>" o.1
|}.

(** The options of a processor named [demo] for the operation [op], with the
    given [append_to], [pop_empty], [dry_run] and [skip_by]; every other
    option at its default. *)
Definition custom (op op_params : string) (append_to pop_empty : list string)
    (dry_run : bool) (skip_by : option (list string)) : P.t :=
  {| P.name := "demo"; P.keep_ids := false; P.overwrite := true; P.flatten := false;
     P.append_to := append_to; P.append_to_set := []; P.normalize := []; P.fields := None;
     P.pop_empty := pop_empty; P.keep_source_logs := false; P.dry_run := dry_run;
     P.log_size := 256; P.log_fields := []; P.log_pretty := false;
     P.fail_on_error := true; P.show_diff := None; P.op := op; P.op_params := op_params;
     P.skip_by := skip_by; P.transformer := None; P.source_consolidation_mode := None;
     P.backend := None; P.ns := None; P.query := None; P.extra := None;
     P.extra_options := None |}.

(** Every option at its default. *)
Definition options (op op_params : string) : P.t :=
  custom op op_params [] [] false None.

(** The same options with [overwrite] off. *)
Definition keeping (q : P.t) : P.t :=
  {| P.name := P.name q; P.keep_ids := P.keep_ids q; P.overwrite := false;
     P.flatten := P.flatten q; P.append_to := P.append_to q;
     P.append_to_set := P.append_to_set q; P.normalize := P.normalize q;
     P.fields := P.fields q; P.pop_empty := P.pop_empty q;
     P.keep_source_logs := P.keep_source_logs q; P.dry_run := P.dry_run q;
     P.log_size := P.log_size q; P.log_fields := P.log_fields q;
     P.log_pretty := P.log_pretty q; P.fail_on_error := P.fail_on_error q;
     P.show_diff := P.show_diff q; P.op := P.op q; P.op_params := P.op_params q;
     P.skip_by := P.skip_by q; P.transformer := P.transformer q;
     P.source_consolidation_mode := P.source_consolidation_mode q;
     P.backend := P.backend q; P.ns := P.ns q; P.query := P.query q;
     P.extra := P.extra q; P.extra_options := P.extra_options q |}.

(** A processor with the job log [{job: j1}]. *)
Definition with_options (q : P.t) : Base :=
  {| params := q; job_log := {["job" := VStr "j1"]} |}.

Definition processor (op op_params : string) : Base :=
  with_options (options op op_params).

Definition world0 (b : db) : world db := {| store := b; clock := 0 |}.

End Demo.

(** Records and a store for the examples. *)
Definition alice : record :=
  <["email" := VStr "a@b.com"]> (<["name" := VStr "Alice"]> {["age" := VInt 30]}).
Definition al : record :=
  <["email" := VStr "a@b.com"]> {["name" := VStr "Al"]}.
Definition bob : record :=
  <["email" := VStr "a@b.com"]> {["name" := VStr "Bob"]}.

(** A store with two documents under the same email. *)
Definition two_docs : Demo.db := <[1%nat := alice]> {[2%nat := al]}.

Definition job_entry : value := VDict {["job" := VStr "j1"]}.
Definition prior_entry : value := VDict {["op" := VStr "prior"]}.

(** ** Reading a trace event by event *)

(** Every event a computation emits satisfies [P], from any world. *)
Definition traces {B O A} (P : event O → Prop) (m : M B O A) : Prop :=
  ∀ w, Forall P (m w).2.

(** An event that is no call of the persist primitive, of the delete
    primitive. *)
Definition not_persist {O} (e : event O) : Prop :=
  match e with EPersist _ _ => False | _ => True end.

Definition not_delete {O} (e : event O) : Prop :=
  match e with EDelete _ => False | _ => True end.

(** An event that is a log line. *)
Definition is_log {O} (e : event O) : Prop :=
  match e with ELog _ _ => True | _ => False end.

(** A computation changes the backend state only through a recorded call of
    the persist or the delete primitive. *)
Definition tracked {B O A} (m : M B O A) : Prop :=
  ∀ w, persisted (m w).2 = [] → deleted (m w).2 = [] → store (m w).1.2 = store w.

(** ** Following the declarations of [__init__] *)

(** [k] is none of the names in [names]. *)
Definition name_fresh (k : string) (names : list string) : bool :=
  forallb (fun n => negb (String.eqb n k)) names.

(** What a declaration returns for an option that is not configured: its
    default, nothing under [allow_missing]; a required option cannot be
    left out. *)
Definition when_unset {T} (kw : kwargs T) (r : option T) : Prop :=
  match kw with
  | Default d => r = Some d
  | AllowMissing => r = None
  | Required => False
  end.

(** In a proof about [declare_ops]: the next declaration has succeeded;
    [tac] is run on the equation that says so. *)
Ltac on_define_op Hd tac :=
  match type of Hd with
  | match define_op ?st ?a ?n ?kw with _ => _ end = Ok _ =>
      let E := fresh "E" in
      destruct (define_op st a n kw) as [[? ?]|?] eqn:E; [|discriminate Hd];
      cbv beta iota zeta in Hd;
      tac E
  end.

(** ** Text helpers of the naming code *)

(** Character classes, over ASCII. *)
Definition in_range (lo hi c : ascii) : bool :=
  Nat.leb (nat_of_ascii lo) (nat_of_ascii c) && Nat.leb (nat_of_ascii c) (nat_of_ascii hi).

Definition is_digit (c : ascii) : bool := in_range "0" "9" c.
Definition is_upper (c : ascii) : bool := in_range "A" "Z" c.
Definition is_lower (c : ascii) : bool := in_range "a" "z" c.
Definition is_underscore (c : ascii) : bool := Ascii.eqb c "_".

(** [[0-9a-zA-Z_]] and [[a-zA-Z_]]. *)
Definition is_word (c : ascii) : bool :=
  is_digit c || is_lower c || is_upper c || is_underscore c.

Definition is_name_start (c : ascii) : bool :=
  is_lower c || is_upper c || is_underscore c.

(** The characters [str.strip()] removes, over ASCII. *)
Definition is_space (c : ascii) : bool :=
  in_range "009" "013" c || in_range "028" "032" c.

(** Every character of [s] satisfies [f]. *)
Fixpoint all_chars (f : ascii → bool) (s : string) : bool :=
  match s with
  | EmptyString => true
  | String c s' => f c && all_chars f s'
  end.

(** [s] without the characters that fail [f]. *)
Fixpoint keep (f : ascii → bool) (s : string) : string :=
  match s with
  | EmptyString => EmptyString
  | String c s' => if f c then String c (keep f s') else keep f s'
  end.

(** [s] without its longest prefix of characters that satisfy [f]. *)
Fixpoint drop_while (f : ascii → bool) (s : string) : string :=
  match s with
  | EmptyString => EmptyString
  | String c s' => if f c then drop_while f s' else s
  end.

(** [s] without its longest suffix of characters that satisfy [f]. *)
Fixpoint drop_end_while (f : ascii → bool) (s : string) : string :=
  match s with
  | EmptyString => EmptyString
  | String c s' =>
      match drop_end_while f s' with
      | EmptyString => if f c then EmptyString else String c EmptyString
      | r => String c r
      end
  end.

(** [s.strip()] and [s.lower()], over ASCII. *)
Definition strip (s : string) : string := drop_end_while is_space (drop_while is_space s).

Definition lower_char (c : ascii) : ascii :=
  if is_upper c then ascii_of_nat (nat_of_ascii c + 32) else c.

Fixpoint lower (s : string) : string :=
  match s with
  | EmptyString => EmptyString
  | String c s' => String (lower_char c) (lower s')
  end.

(** ** Names of the Mongo registry ([mongosets.py]) *)

Module Mongosets.

(** [safe_name]: the two substitutions, first every character outside
    [[0-9a-zA-Z_]], then the leading run outside [[a-zA-Z_]]. *)
Definition safe_name (name : string) : string :=
  let cleaned := keep is_word name in
  drop_while (fun c => negb (is_name_start c)) cleaned.

(** [get_dataset_names].  The connections and their collections are read
    from the driver; here they are the argument [dbs], one entry per
    connected namespace with the collection names of its database, in the
    order the driver gives them. *)
Definition get_dataset_names (dbs : list (string * list string))
    (match_name match_namespace : string) : list (string * string * string) :=
  flat_map (fun '(namespace, collection_names) =>
    if (negb (String.eqb match_namespace "") && String.eqb match_namespace namespace)
       || String.eqb match_namespace ""
    then
      (fun name => (namespace, name, name))
        <$> filter (fun name => contains match_name (lower name) = true
                                ∧ String.prefix "system." name = false)
                   collection_names
    else []) dbs.

End Mongosets.

(** ** Header cleaning of the CSV reader ([csv.py]) *)

Module Csv.

(** [_n], the cleaner local to [process_row]: the stripped header with
    space, comma and newline turned into an underscore, parentheses and
    slash removed, in lower case. *)
Definition unders : list ascii := [" "; ","; "010"]%char.
Definition removes : list ascii := ["("; ")"; "/"]%char.

Fixpoint scrub (text : string) : string :=
  match text with
  | EmptyString => EmptyString
  | String ch rest =>
      if bool_decide (ch ∈ unders) then String "_" (scrub rest)
      else if bool_decide (ch ∈ removes) then scrub rest
      else String ch (scrub rest)
  end.

Definition _n (text : string) : string := lower (scrub (strip text)).

(** [clean]: the row's cells, in column order, written one by one under
    the cleaned header. *)
Definition clean (cells : list (string * value)) : record :=
  foldl (fun n_dict '(kk, vv) => <[_n kk := vv]> n_dict) ∅ cells.

End Csv.

(** * Properties *)

(** ** The merge policy *)

Section MergeFacts.
Context `{Collaborators}.

Lemma update_plain_lookup (kw : merge_kw) (self d : record) (k : string) :
  update_plain kw self d !! k =
    match d !! k with
    | Some v => Some (match self !! k with
                      | Some old => merge_field kw k old v
                      | None => v
                      end)
    | None => self !! k
    end.
Proof.
  unfold update_plain.
  rewrite lookup_union, map_lookup_imap.
  destruct (d !! k) as [v|]; simpl.
  - destruct (self !! k); reflexivity.
  - destruct (self !! k); reflexivity.
Qed.

Lemma merge_field_plain (kw : merge_kw) (k : string) (old new : value) :
  k ∉ kw_append_to kw → k ∉ kw_append_to_set kw →
  merge_field kw k old new = if kw_overwrite kw then new else old.
Proof.
  intros Ha Hs. unfold merge_field.
  rewrite !bool_decide_eq_false_2 by assumption.
  reflexivity.
Qed.

(** Without keywords everything of the second dictionary wins. *)
Lemma update_with_defaults_lookup (self d : record) (k : string) :
  update_with kw_defaults self d !! k =
    match d !! k with Some v => Some v | None => self !! k end.
Proof.
  unfold update_with; simpl. rewrite update_plain_lookup.
  destruct (d !! k); [|reflexivity].
  destruct (self !! k); reflexivity.
Qed.


End MergeFacts.



(** ** Running computations *)

Section Runs.
Context {B O : Type}.

Lemma bind_run {A A'} (m : M B O A) (f : A → M B O A') (w : world B) :
  (x ← m; f x) w =
    match m w with
    | (Ok a, w1, t1) => let '(r, w2, t2) := f a w1 in (r, w2, t1 ++ t2)
    | (Raise e, w1, t1) => (Raise e, w1, t1)
    end.
Proof. reflexivity. Qed.

Lemma persisted_app (t1 t2 : list (event O)) :
  persisted (t1 ++ t2) = persisted t1 ++ persisted t2.
Proof. unfold persisted. apply omap_app. Qed.

Lemma deleted_app (t1 t2 : list (event O)) :
  deleted (t1 ++ t2) = deleted t1 ++ deleted t2.
Proof. unfold deleted. apply omap_app. Qed.

Lemma Forall2_firsts {A} (R : O → O * A → Prop) (l : list O) (l' : list (O * A)) :
  Forall2 (fun each od => od.1 = each ∧ R each od) l l' → l'.*1 = l.
Proof.
  induction 1 as [|each od l l' [Ho _] _ IH]; simpl; [reflexivity|].
  f_equal; assumption.
Qed.

Lemma quiet_ret {A} (a : A) : quiet (mret a : M B O A).
Proof. intros w. repeat split. Qed.

Lemma quiet_throw {A} (e : exn) : quiet (throw e : M B O A).
Proof. intros w. repeat split. Qed.

Lemma quiet_lift {A} (r : result A) : quiet (lift r : M B O A).
Proof. intros w. repeat split. Qed.

Lemma quiet_log (lv : level) (msg : string) : quiet (log lv msg : M B O unit).
Proof. intros w. repeat split. Qed.

Lemma quiet_bind {A A'} (m : M B O A) (f : A → M B O A') :
  quiet m → (∀ a, quiet (f a)) → quiet (x ← m; f x).
Proof.
  intros Hm Hf w. rewrite bind_run.
  destruct (Hm w) as (Hs & Hp & Hd).
  destruct (m w) as [[[a|e] w1] t1]; simpl in *.
  - destruct (Hf a w1) as (Hs' & Hp' & Hd').
    destruct (f a w1) as [[r w2] t2]; simpl in *.
    rewrite persisted_app, deleted_app, Hp, Hd, Hp', Hd'.
    repeat split; congruence.
  - repeat split; assumption.
Qed.

Lemma quiet_finally {A} (body : M B O A) (fin : M B O unit) :
  quiet body → quiet fin → quiet (try_finally body fin).
Proof.
  intros Hb Hf w. unfold try_finally.
  destruct (Hb w) as (Hs & Hp & Hd).
  destruct (body w) as [[r w1] t1]; simpl in *.
  destruct (Hf w1) as (Hs' & Hp' & Hd').
  destruct (fin w1) as [[rf w2] t2]; simpl in *.
  rewrite persisted_app, deleted_app, Hp, Hd, Hp', Hd'.
  repeat split; congruence.
Qed.

End Runs.

Create HintDb quiet.
#[export] Hint Resolve quiet_ret quiet_throw quiet_lift quiet_log : quiet.
#[export] Hint Extern 2 (quiet (mbind _ _)) => apply quiet_bind; [|intros] : quiet.
#[export] Hint Extern 2 (quiet (try_finally _ _)) => apply quiet_finally : quiet.
#[export] Hint Extern 3 (quiet (if ?b then _ else _)) => destruct b : quiet.
#[export] Hint Extern 3 (quiet (match ?x with _ => _ end)) => destruct x : quiet.

(** ** The save pipeline and the operations *)

Section EngineFacts.
Context `{Collaborators} {B O : Type} `{Backend B O}.
Variable self : Base.

#[local] Abbreviation p := (params self).

Lemma quiet_for_each {A} (l : list A) (body : A → M B O unit) :
  (∀ x, quiet (body x)) → quiet (for_each l body).
Proof.
  intros Hb. induction l as [|x l IH]; simpl; auto with quiet.
Qed.

Lemma quiet_tick : quiet (tick : M B O nat).
Proof. intros w. repeat split. Qed.

Lemma quiet_lookup (q : record) : quiet (lookup q : M B O (collection O)).
Proof. intros w. repeat split. Qed.

Lemma quiet_resolve_sentinels (kvs : list (string * value)) (extra_f : record) :
  quiet (resolve_sentinels kvs extra_f : M B O record).
Proof.
  revert extra_f. induction kvs as [|[k v] kvs IH]; intros extra_f; simpl.
  - auto with quiet.
  - apply quiet_bind; [|intros; apply IH].
    destruct v; try apply quiet_ret.
    destruct (String.eqb s "__gid__");
      [apply quiet_bind; [apply quiet_tick|intros; apply quiet_ret]|].
    destruct (String.eqb s "__today__");
      [apply quiet_bind; [apply quiet_tick|intros; apply quiet_ret]|apply quiet_ret].
Qed.

Lemma quiet_add_extra (data : record) : quiet (add_extra self data : M B O record).
Proof.
  unfold add_extra. destruct (P.extra p); auto using quiet_resolve_sentinels with quiet.
Qed.

Lemma quiet_objects_to_update (keys : list string) (data : record) :
  quiet (objects_to_update self keys data : M B O (record * collection O)).
Proof.
  unfold objects_to_update.
  apply quiet_bind.
  - apply quiet_for_each. intros kk. auto with quiet.
  - intros _. auto using quiet_lookup with quiet.
Qed.

Lemma quiet_log_not_found (q data : record) :
  quiet (log_not_found self q data : M B O unit).
Proof. apply quiet_log. Qed.


(** C9.  When [skip_by] is configured and the lookup over those key fields
    finds something, [create] logs the skip and returns: nothing is
    persisted and the world is as before.  The same holds of a [create]
    operation processed without extra fields. *)
Theorem create_skips_existing (data : record) (keys : list string) (q : record)
    (c : collection O) (w : world B) :
  P.skip_by p = Some keys →
  skip_query self data keys = Ok q →
  get_collection q (store w) = Ok c →
  found c = true →
  create self data w
    = (Ok tt, w, [ELog DEBUG ("SKIP creation: " +:+ show_collection c
                              +:+ " objects exists with: " +:+ str (VDict q))])
  ∧ persisted (create self data w).2 = []
  ∧ (P.op p = "create" → P.extra p = None →
     process self data w = create self data w).
Proof.
  intros Hskip Hq Hc Hfound.
  assert (E : create self data w
              = (Ok tt, w, [ELog DEBUG ("SKIP creation: " +:+ show_collection c
                                        +:+ " objects exists with: " +:+ str (VDict q))])).
  { unfold create. rewrite Hskip, Hq. run. unfold lookup. simpl.
    rewrite Hc. simpl. rewrite Hfound. reflexivity. }
  split; [exact E|]. split; [rewrite E; reflexivity|].
  intros Hop Hextra. unfold process, add_extra. rewrite Hextra.
  rewrite bind_run. unfold mret, M_mret, M_ret.
  unfold dispatch. rewrite Hop. simpl.
  destruct (create self data w) as [[r w'] t]. reflexivity.
Qed.


Lemma dict_empty_empty : dict_empty (∅ : record) = true.
Proof. unfold dict_empty. apply bool_decide_eq_true_2. apply map_size_empty. Qed.

Lemma dict_empty_lookup (d : record) (k : string) (v : value) :
  d !! k = Some v → dict_empty d = false.
Proof.
  intros Hk. unfold dict_empty. apply bool_decide_eq_false_2.
  intros Hsize. apply map_size_empty_iff in Hsize. subst d.
  rewrite lookup_empty in Hk. discriminate.
Qed.


Lemma pop_empties_keeps (d : record) (k : string) (v : value) :
  d !! k = Some v → is_blank v = false → pop_empties self d !! k = Some v.
Proof.
  unfold pop_empties. generalize (P.pop_empty p) as l.
  intros l. revert d. induction l as [|ekey l IH]; intros d Hk Hv; simpl.
  - exact Hk.
  - apply IH; [|exact Hv].
    destruct (d !! ekey) as [x|] eqn:Hx; [|exact Hk].
    destruct (is_blank x) eqn:Hb; [|exact Hk].
    rewrite lookup_delete_ne; [exact Hk|].
    intros ->. rewrite Hk in Hx. injection Hx as ->. congruence.
Qed.

(** What [pre_save] returns holds the entry of the current operation at the
    front of its [logs]. *)
Lemma pre_save_logs (data d : record) (meta : Meta) :
  pre_save self data meta = Ok d →
  ∃ old, d !! "logs" = Some (VList (VDict (meta_log meta) :: old)).
Proof.
  unfold pre_save.
  destruct (default (VList []) (run_transformer self data !! "logs")) as [| | | |old|];
    try discriminate.
  intros [= <-]. exists old.
  apply pop_empties_keeps; [|reflexivity].
  apply lookup_insert_eq.
Qed.


(** What [save] persists: nothing for empty data, under [dry_run] or when
    [pre_save] fails, and otherwise what [pre_save] returns, once. *)
Lemma save_persisted (obj : O) (data : record) (meta : Meta) (w : world B) :
  persisted (save self obj data meta w).2 =
    if dict_empty data then []
    else match pre_save self data meta with
         | Ok d => if P.dry_run p then [] else [(obj, d)]
         | Raise _ => []
         end.
Proof.
  unfold save. destruct (dict_empty data); [reflexivity|].
  rewrite bind_run. unfold lift.
  destruct (pre_save self data meta) as [d|e]; [|reflexivity].
  unfold try_finally.
  destruct (P.dry_run p); [reflexivity|].
  unfold persist. destruct (_save obj d (store w)) as [[r b]|e]; reflexivity.
Qed.

(** [save] and the delete step never call each other's primitive. *)
Lemma save_deleted (obj : O) (data : record) (meta : Meta) (w : world B) :
  deleted (save self obj data meta w).2 = [].
Proof.
  unfold save. destruct (dict_empty data); [reflexivity|].
  rewrite bind_run. unfold lift.
  destruct (pre_save self data meta) as [d|e]; [|reflexivity].
  unfold try_finally.
  destruct (P.dry_run p); [reflexivity|].
  unfold persist. destruct (_save obj d (store w)) as [[r b]|e]; reflexivity.
Qed.

Lemma delete_obj_persisted (obj : O) (w : world B) :
  persisted (delete_obj self obj w).2 = [].
Proof.
  unfold delete_obj, try_finally.
  destruct (P.dry_run p); [reflexivity|].
  unfold remove. destruct (obj_delete obj (store w)); reflexivity.
Qed.

(** ** The log entry of the current operation *)

Lemma stamps_quiet {A} (data : record) (m : M B O A) : quiet m → stamps self data m.
Proof.
  intros Hq w. unfold stamped. destruct (Hq w) as (_ & -> & _). constructor.
Qed.

Lemma stamps_bind {A A'} (data : record) (m : M B O A) (f : A → M B O A') :
  stamps self data m → (∀ a, stamps self data (f a)) → stamps self data (x ← m; f x).
Proof.
  intros Hm Hf w. rewrite bind_run. specialize (Hm w).
  destruct (m w) as [[[a|e] w1] t1]; simpl in *; [|exact Hm].
  specialize (Hf a w1). destruct (f a w1) as [[r w2] t2]; simpl in *.
  unfold stamped in *. rewrite persisted_app. apply Forall_app. split; assumption.
Qed.

Lemma stamps_lift_bind {A A'} (data : record) (r : result A) (f : A → M B O A') :
  (∀ a, r = Ok a → stamps self data (f a)) → stamps self data (x ← lift r; f x).
Proof.
  intros Hf w. rewrite bind_run. unfold lift.
  destruct r as [a|e]; simpl.
  - specialize (Hf a eq_refl w). destruct (f a w) as [[r w2] t2]. exact Hf.
  - constructor.
Qed.

Lemma stamps_for_each {A} (data : record) (l : list A) (body : A → M B O unit) :
  (∀ x, stamps self data (body x)) → stamps self data (for_each l body).
Proof.
  intros Hb. induction l as [|x l IH]; simpl.
  - apply stamps_quiet, quiet_ret.
  - apply stamps_bind; [apply Hb|intros; apply IH].
Qed.

Lemma stamps_save (data : record) (obj : O) (d : record) (meta : Meta) (d' : record) :
  extract_log self data = Ok (meta_log meta, d') →
  stamps self data (save self obj d meta).
Proof.
  intros Hlog w. unfold stamped. rewrite save_persisted.
  destruct (dict_empty d); [constructor|].
  destruct (pre_save self d meta) as [d1|e] eqn:Hpre; [|constructor].
  destruct (P.dry_run p); [constructor|].
  constructor; [|constructor].
  apply pre_save_logs in Hpre as [old Hold].
  exists (meta_log meta), d', old. split; assumption.
Qed.

(** The entry depends on the [log] field alone. *)
Lemma extract_log_field (data data' log d : record) :
  data' !! "log" = data !! "log" →
  extract_log self data' = Ok (log, d) →
  ∃ d', extract_log self data = Ok (log, d').
Proof.
  unfold extract_log. intros ->.
  destruct (dictset (default (VDict ∅) (data !! "log"))) as [l|e]; simpl; [|discriminate].
  intros [= <- <-]. eauto.
Qed.

Lemma extract_meta_log (data d : record) (meta : Meta) :
  extract_meta self data = Ok (meta, d) →
  extract_log self data = Ok (meta_log meta, d).
Proof.
  unfold extract_meta.
  destruct (extract_log self data) as [[log d0]|e]; simpl; [|discriminate].
  intros [= <- <-]. reflexivity.
Qed.

Lemma rename_id_log (data : record) : rename_id self data !! "log" = data !! "log".
Proof.
  unfold rename_id. destruct (data !! "id"); [|reflexivity].
  destruct (_ && _); [|reflexivity].
  rewrite lookup_insert_ne by discriminate.
  rewrite lookup_delete_ne by discriminate. reflexivity.
Qed.

Lemma stamps_create (data : record) : stamps self data (create self data).
Proof.
  unfold create. apply stamps_bind.
  - apply stamps_quiet. destruct (P.skip_by p); auto using quiet_lookup with quiet.
  - intros [|]; [apply stamps_quiet, quiet_ret|].
    apply stamps_lift_bind. intros [meta d] Hmeta.
    apply extract_meta_log in Hmeta.
    destruct (extract_log_field data _ _ _ (rename_id_log data) Hmeta) as [d' Hd'].
    apply stamps_bind; [eapply stamps_save, Hd'|].
    intros _. apply stamps_quiet, quiet_log.
Qed.

Lemma stamps_update_objects (q : record) (objects : collection O) (data : record) :
  stamps self data (update_objects self q objects data).
Proof.
  unfold update_objects.
  apply stamps_lift_bind. intros n _.
  apply stamps_bind; [apply stamps_quiet; auto with quiet|]. intros _.
  apply stamps_lift_bind. intros [meta d] Hmeta.
  apply extract_meta_log in Hmeta.
  assert (Hlog : ∃ d', extract_log self data = Ok (meta_log meta, d')).
  { destruct (P.keep_source_logs p); [eauto|].
    eapply extract_log_field, Hmeta.
    apply lookup_delete_ne. discriminate. }
  destruct Hlog as [d' Hd'].
  apply stamps_lift_bind. intros l _.
  apply stamps_bind; [|intros; apply stamps_quiet, quiet_ret].
  apply stamps_for_each. intros each. unfold update_each.
  apply stamps_bind.
  { apply stamps_quiet. destruct (P.show_diff p); [|apply quiet_ret].
    unfold diff. apply quiet_bind.
    - apply quiet_for_each. intros; apply quiet_log.
    - intros _. auto with quiet. }
  intros _. apply stamps_bind; [apply stamps_quiet; auto with quiet|]. intros _.
  apply stamps_bind; [eapply stamps_save, Hd'|].
  intros _. apply stamps_quiet, quiet_log.
Qed.

Lemma stamps_delete_obj (data : record) (obj : O) : stamps self data (delete_obj self obj).
Proof.
  intros w. unfold stamped. rewrite delete_obj_persisted. constructor.
Qed.

(** C5.  Every record that processing a record persists, whatever the
    operation and the options ([fields] included), holds a non-empty [logs]
    list whose first element is the log entry of the current operation: the
    [log] field of the incoming data, as it stands once the extra fields are
    added, merged with the job log. *)
Theorem persisted_logs_head (data : record) (w : world B) :
  Forall (fun od => ∃ data1 l d' old,
            (add_extra (O := O) self data w).1.1 = Ok data1
            ∧ dictset (default (VDict ∅) (data1 !! "log")) = Ok l
            ∧ extract_log self data1 = Ok (update_with kw_defaults l (job_log self), d')
            ∧ od.2 !! "logs"
                = Some (VList (VDict (update_with kw_defaults l (job_log self)) :: old)))
         (persisted (process self data w).2).
Proof.
  unfold process. rewrite bind_run.
  destruct (quiet_add_extra data w) as (_ & Hp & _).
  destruct (add_extra self data w) as [[[data1|e] w1] t1]; simpl in *;
    [|rewrite Hp; constructor].
  assert (S : stamps self data1 (dispatch self data1 : M B O unit)).
  { unfold dispatch.
    destruct (_ && _); [apply stamps_quiet, quiet_throw|].
    destruct (String.eqb (P.op p) "create"); [apply stamps_create|].
    destruct (String.eqb (P.op p) "update").
    { apply stamps_bind; [apply stamps_quiet, quiet_objects_to_update|].
      intros [q objects]. destruct (negb (found objects)).
      - apply stamps_quiet, quiet_log_not_found.
      - apply stamps_bind; [apply stamps_update_objects|].
        intros; apply stamps_quiet, quiet_ret. }
    destruct (String.eqb (P.op p) "upsert").
    { apply stamps_bind; [apply stamps_quiet, quiet_objects_to_update|].
      intros [q objects]. destruct (found objects).
      - apply stamps_bind; [apply stamps_update_objects|].
        intros; apply stamps_quiet, quiet_ret.
      - apply stamps_create. }
    destruct (String.eqb (P.op p) "delete"); [|apply stamps_quiet, quiet_throw].
    apply stamps_bind; [apply stamps_quiet, quiet_objects_to_update|].
    intros [q objects]. destruct (negb (found objects)).
    - apply stamps_quiet, quiet_log_not_found.
    - apply stamps_lift_bind. intros objs _.
      apply stamps_bind.
      + apply stamps_for_each. intros o.
        apply stamps_bind; [apply stamps_delete_obj|].
        intros; apply stamps_quiet, quiet_ret.
      + intros _. apply stamps_quiet. auto with quiet. }
  specialize (S w1). unfold stamped in S.
  destruct (dispatch self data1 w1) as [[r w2] t2].
  simpl in *. rewrite persisted_app, Hp. simpl.
  eapply Forall_impl; [exact S|].
  intros od (log & d' & old & Hlog & Hlogs).
  unfold extract_log in Hlog.
  destruct (dictset (default (VDict ∅) (data1 !! "log"))) as [l|e] eqn:Hl;
    simpl in Hlog; [|discriminate].
  injection Hlog as <- <-.
  exists data1, l, (delete "log" data1), old.
  repeat split; try assumption.
  unfold extract_log. rewrite Hl. reflexivity.
Qed.

(** ** The create path keeps the incoming log history *)

Lemma pop_empties_other (d : record) (k : string) :
  d !! k = None → pop_empties self d !! k = None.
Proof.
  unfold pop_empties. generalize (P.pop_empty p) as l.
  intros l. revert d. induction l as [|ekey l IH]; intros d Hk; simpl.
  - exact Hk.
  - apply IH.
    destruct (d !! ekey) as [x|]; [|exact Hk].
    destruct (is_blank x); [|exact Hk].
    destruct (decide (ekey = k)) as [->|Hne].
    + apply lookup_delete_eq.
    + rewrite lookup_delete_ne by assumption. exact Hk.
Qed.

(** [pre_save] succeeds on data whose [logs], after the transformer, is a
    list, and puts the current entry in front of that very list. *)
Lemma pre_save_logs_exact (data : record) (meta : Meta) (old : list value) :
  run_transformer self data !! "logs" = Some (VList old) →
  ∃ d, pre_save self data meta = Ok d
       ∧ d !! "logs" = Some (VList (VDict (meta_log meta) :: old)).
Proof.
  intros Hlogs. unfold pre_save. rewrite Hlogs. simpl.
  eexists. split; [reflexivity|].
  apply pop_empties_keeps; [|reflexivity].
  apply lookup_insert_eq.
Qed.

Lemma extract_meta_data (data d : record) (meta : Meta) :
  extract_meta self data = Ok (meta, d) → d = delete "log" data.
Proof.
  unfold extract_meta, extract_log.
  destruct (dictset (default (VDict ∅) (data !! "log"))) as [l|e]; simpl; [|discriminate].
  intros [= <- <-]. reflexivity.
Qed.

Lemma rename_id_logs (data : record) : rename_id self data !! "logs" = data !! "logs".
Proof.
  unfold rename_id. destruct (data !! "id"); [|reflexivity].
  destruct (_ && _); [|reflexivity].
  rewrite lookup_insert_ne by discriminate.
  rewrite lookup_delete_ne by discriminate. reflexivity.
Qed.

(** C6, as amended.  [create] does not run the merge path: it hands the
    incoming data to [save] with its [logs] field in place, whether
    [keep_source_logs] is set or not.  Without [skip_by], transformer and
    [dry_run], a create on data whose [logs] is a list persists one record,
    whose [logs] is the current entry followed by the incoming entries. *)
Theorem create_keeps_incoming_logs (data : record) (old : list value) (meta : Meta)
    (d : record) (w : world B) :
  P.skip_by p = None →
  P.transformer p = None →
  P.dry_run p = false →
  data !! "logs" = Some (VList old) →
  extract_meta self (rename_id self data) = Ok (meta, d) →
  ∃ saved, persisted (create self data w).2 = [(klass, saved)]
           ∧ saved !! "logs" = Some (VList (VDict (meta_log meta) :: old)).
Proof.
  intros Hskip Htrans Hdry Hlogs Hmeta.
  assert (Hd : d !! "logs" = Some (VList old)).
  { rewrite (extract_meta_data _ _ _ Hmeta).
    rewrite lookup_delete_ne by discriminate.
    rewrite rename_id_logs. exact Hlogs. }
  assert (Ht : run_transformer self d !! "logs" = Some (VList old)).
  { unfold run_transformer. rewrite Htrans. exact Hd. }
  destruct (pre_save_logs_exact d meta old Ht) as (saved & Hpre & Hsaved).
  exists saved. split; [|exact Hsaved].
  unfold create. rewrite Hskip.
  rewrite bind_run. unfold mret at 1, M_mret, M_ret.
  rewrite bind_run. unfold lift at 1. rewrite Hmeta.
  rewrite bind_run.
  pose proof (save_persisted klass d meta w) as Hp.
  rewrite (dict_empty_lookup _ _ _ Hd), Hpre, Hdry in Hp.
  destruct (save self klass d meta w) as [[[r|e] w1] t1]; simpl in *.
  - rewrite persisted_app, Hp. reflexivity.
  - exact Hp.
Qed.

(** ** The update path *)

Lemma logs_only_ret : logs_only (mret tt : M B O unit).
Proof. intros w. exists []. repeat split. Qed.

Lemma logs_only_log (lv : level) (msg : string) : logs_only (log lv msg : M B O unit).
Proof. intros w. exists [ELog lv msg]. repeat split. Qed.

Lemma logs_only_bind (m : M B O unit) (f : unit → M B O unit) :
  logs_only m → (∀ a, logs_only (f a)) → logs_only (x ← m; f x).
Proof.
  intros Hm Hf w. destruct (Hm w) as (t1 & E1 & P1 & D1).
  destruct (Hf tt w) as (t2 & E2 & P2 & D2).
  exists (t1 ++ t2). rewrite bind_run, E1, E2.
  rewrite persisted_app, deleted_app, P1, P2, D1, D2. repeat split.
Qed.

Lemma logs_only_for_each {A} (l : list A) (body : A → M B O unit) :
  (∀ x, logs_only (body x)) → logs_only (for_each l body).
Proof.
  intros Hb. induction l as [|x l IH]; simpl.
  - apply logs_only_ret.
  - apply logs_only_bind; [apply Hb|intros; apply IH].
Qed.

Lemma logs_only_diff (d1 d2 : record) (keys : list string) :
  logs_only (diff d1 d2 keys : M B O unit).
Proof.
  unfold diff. apply logs_only_bind.
  - apply logs_only_for_each. intros kv. apply logs_only_log.
  - intros _. destruct (bool_decide _); [apply logs_only_log|apply logs_only_ret].
Qed.

(** The ways [save] can go. *)
Lemma save_cases (obj : O) (d : record) (meta : Meta) (w : world B) :
  let saved_line d' :=
    ELog DEBUG ("SAVED " +:+ repr obj +:+ " with data:" +:+ newline
                +:+ log_data_format self None (Some d')) in
  (dict_empty d = true
   ∧ save self obj d meta w = (Ok VNone, w, [ELog DEBUG "NOTHING TO SAVE"]))
  ∨ (dict_empty d = false
     ∧ ∃ e, pre_save self d meta = Raise e ∧ save self obj d meta w = (Raise e, w, []))
  ∨ (dict_empty d = false
     ∧ ∃ d', pre_save self d meta = Ok d' ∧ P.dry_run p = true
             ∧ save self obj d meta w
               = (Ok (VDict d'), w, [ELog WARNING "DRY RUN"; saved_line d']))
  ∨ (dict_empty d = false
     ∧ ∃ d', pre_save self d meta = Ok d' ∧ P.dry_run p = false
             ∧ ((∃ r b, _save obj d' (store w) = Ok (r, b)
                        ∧ save self obj d meta w
                          = (Ok r, {| store := b; clock := clock w |},
                             [EPersist obj d'; saved_line d']))
                ∨ (∃ e, _save obj d' (store w) = Raise e
                        ∧ save self obj d meta w
                          = (Raise e, w, [EPersist obj d'; saved_line d'])))).
Proof.
  intros saved_line. unfold save.
  destruct (dict_empty d); [left; split; reflexivity|right].
  rewrite bind_run. unfold lift.
  destruct (pre_save self d meta) as [d'|e]; [right|left; split; eauto].
  unfold try_finally.
  destruct (P.dry_run p); [left; split; [reflexivity|]; exists d'; repeat split|right].
  split; [reflexivity|]. exists d'. split; [reflexivity|]. split; [reflexivity|].
  unfold persist. destruct (_save obj d' (store w)) as [[r b]|e].
  - left. exists r, b. split; reflexivity.
  - right. exists e. split; reflexivity.
Qed.

(** One turn of the update loop is the save of the merged record, between
    log lines. *)
Lemma update_each_run (q data : record) (meta : Meta) (each : O) (w : world B) :
  ∃ t0, persisted t0 = [] ∧ deleted t0 = []
    ∧ update_each self q data meta each w =
        match save self each (merged self data meta each) meta w with
        | (Ok _, w', t) => (Ok tt, w', t0 ++ t ++ [updated_line self q each])
        | (Raise e, w', t) => (Raise e, w', t0 ++ t)
        end.
Proof.
  assert (L1 : logs_only (match P.show_diff p with
                          | Some keys => diff data (to_dict each) keys
                          | None => mret tt
                          end : M B O unit)).
  { destruct (P.show_diff p); [apply logs_only_diff|apply logs_only_ret]. }
  assert (L2 : logs_only
                 (match P.source_consolidation_mode p with
                  | Some _ => mret tt
                  | None =>
                      if truthy (meta_source meta)
                      then log WARNING
                             ("SKIP source consolidation. Reason: `source_consolidation_mode` has not been set. Choices are: "
                              +:+ CONSOLIDATE_MODES +:+ "." +:+ newline +:+ "DATA:"
                              +:+ str (meta_source meta))
                      else mret tt
                  end : M B O unit)).
  { destruct (P.source_consolidation_mode p); [apply logs_only_ret|].
    destruct (truthy _); [apply logs_only_log|apply logs_only_ret]. }
  destruct (L1 w) as (ta & Ea & Pa & Da). destruct (L2 w) as (tb & Eb & Pb & Db).
  exists (ta ++ tb). rewrite persisted_app, deleted_app, Pa, Pb, Da, Db.
  split; [reflexivity|]. split; [reflexivity|].
  unfold update_each. cbv zeta.
  rewrite bind_run, Ea. rewrite bind_run, Eb. rewrite bind_run.
  destruct (save self each (merged self data meta each) meta w) as [[[r|e] w'] t].
  - unfold log, updated_line. rewrite <- !app_assoc. reflexivity.
  - rewrite <- !app_assoc. reflexivity.
Qed.

(** When the update loop completes outside [dry_run], what it persisted is,
    in the order of the matches, each match with a non-empty merged record,
    persisted with the result of [pre_save] on that merged record. *)
Lemma update_loop_persisted (q data : record) (meta : Meta) (l : list O) (w : world B) :
  P.dry_run p = false →
  (for_each l (update_each self q data meta) w).1.1 = Ok tt →
  Forall2 (fun each od =>
             od.1 = each ∧ pre_save self (merged self data meta each) meta = Ok od.2)
          (to_save self data meta l)
          (persisted (for_each l (update_each self q data meta) w).2).
Proof.
  intros Hdry. revert w. induction l as [|each l IH]; intros w Hok; simpl.
  - constructor.
  - simpl in Hok. rewrite bind_run in Hok |- *.
    destruct (update_each_run q data meta each w) as (t0 & P0 & _ & E).
    rewrite E in Hok |- *. clear E.
    unfold to_save. rewrite filter_cons.
    destruct (save_cases each (merged self data meta each) meta w)
      as [(He & Es)|[(He & e & Hpre & Es)|[(He & d' & Hpre & Hd & Es)|
          (He & d' & Hpre & _ & [(r & b & Hs & Es)|(e & Hs & Es)])]]];
      rewrite Es in Hok |- *; clear Es; try discriminate; try congruence.
    + rewrite decide_False by congruence.
      specialize (IH w).
      destruct (for_each l (update_each self q data meta) w) as [[r' w2] t2].
      simpl in *. rewrite !persisted_app, P0. simpl. apply IH. exact Hok.
    + rewrite decide_True by assumption.
      specialize (IH {| store := b; clock := clock w |}).
      destruct (for_each l (update_each self q data meta) _) as [[r' w2] t2].
      simpl in *. rewrite !persisted_app, P0. simpl.
      constructor; [split; [reflexivity|exact Hpre]|]. apply IH. exact Hok.
Qed.

(** The update loop completes when the persist primitive does not fail and
    [pre_save] accepts every merged record. *)
Lemma update_loop_succeeds (q data : record) (meta : Meta) (l : list O) (w : world B) :
  (∀ o x b, is_ok (_save o x b) = true) →
  (∀ each, each ∈ l → is_ok (pre_save self (merged self data meta each) meta) = true) →
  (for_each l (update_each self q data meta) w).1.1 = Ok tt.
Proof.
  intros Hsave. revert w. induction l as [|each l IH]; intros w Hpre; simpl.
  - reflexivity.
  - rewrite bind_run.
    destruct (update_each_run q data meta each w) as (t0 & _ & _ & E). rewrite E. clear E.
    assert (Hl : ∀ x, x ∈ l → is_ok (pre_save self (merged self data meta x) meta) = true).
    { intros x Hx. apply Hpre. right. exact Hx. }
    pose proof (Hpre each (list_elem_of_here _ _)) as Hp.
    destruct (save_cases each (merged self data meta each) meta w)
      as [(He & Es)|[(He & e & Hpre' & Es)|[(He & d' & Hpre' & Hd & Es)|
          (He & d' & Hpre' & _ & [(r & b & Hs & Es)|(e & Hs & Es)])]]];
      rewrite Es; clear Es.
    + specialize (IH w Hl).
      destruct (for_each l (update_each self q data meta) w) as [[r' w2] t2]. exact IH.
    + rewrite Hpre' in Hp. discriminate.
    + specialize (IH w Hl).
      destruct (for_each l (update_each self q data meta) w) as [[r' w2] t2]. exact IH.
    + specialize (IH {| store := b; clock := clock w |} Hl).
      destruct (for_each l (update_each self q data meta) _) as [[r' w2] t2]. exact IH.
    + specialize (Hsave each d' (store w)). rewrite Hs in Hsave. discriminate.
Qed.

(** [update_objects] on a list of matches: the warning when there are
    several, then the loop over all of them, then the number of matches. *)
Lemma update_objects_run (q : record) (l : list O) (data d : record) (meta : Meta)
    (w : world B) :
  extract_meta self (if P.keep_source_logs p then data else delete "logs" data)
    = Ok (meta, d) →
  update_objects self q (Objects l) data w =
    let '(r, w', t) := for_each l (update_each self q d meta) w in
    (match r with Ok _ => Ok (length l) | Raise e => Raise e end, w',
     (if bool_decide (1 < length l)%nat then [multiple_line self q (length l)] else []) ++ t).
Proof.
  intros Hmeta. unfold update_objects. cbv zeta.
  unfold len, items. rewrite bind_run. unfold lift at 1.
  rewrite bind_run.
  assert (E : (if bool_decide (1 < length l)%nat
               then log WARNING ("Multiple (" +:+ str (VInt (Z.of_nat (length l)))
                                 +:+ ") updates for" +:+ newline
                                 +:+ log_data_format self (Some (VDict q)) None)
               else mret tt : M B O unit) w
              = (Ok tt, w, if bool_decide (1 < length l)%nat
                           then [multiple_line self q (length l)] else [])).
  { destruct (bool_decide _); reflexivity. }
  rewrite E. clear E.
  rewrite bind_run. unfold lift at 1. rewrite Hmeta.
  rewrite bind_run. unfold lift at 1.
  rewrite bind_run.
  destruct (for_each l (update_each self q d meta) w) as [[[r|e] w'] t]; simpl.
  - rewrite !app_nil_r. reflexivity.
  - reflexivity.
Qed.

(** The dispatch of an [update] with key fields. *)
Lemma dispatch_update (data : record) :
  P.op p = "update" →
  op_keys self ≠ [] →
  dispatch self data =
    ('(params, objects) ← objects_to_update self (op_keys self) data;
     if negb (found objects) then log_not_found self params data
     else _ ← update_objects self params objects data; mret tt).
Proof.
  intros Hop Hkeys. unfold dispatch. rewrite Hop.
  rewrite (bool_decide_eq_false_2 _ Hkeys), andb_false_r.
  reflexivity.
Qed.


End EngineFacts.

(** ** Option validation *)

Section OptionFacts.
Context `{Collaborators}.

Lemma declared_start (raw : record) (ops0 : gset string) :
  declared_so_far raw ops0 ∅ (raw, ops0).
Proof. split; simpl; set_solver. Qed.

Lemma declared_define_op {T} (raw : record) (ops0 names : gset string) (st st' : decl_state)
    (a : accessor T) (name : string) (kw : kwargs T) (r : option T) :
  declared_so_far raw ops0 names st →
  define_op st a name kw = Ok (r, st') →
  declared_so_far raw ops0 ({[name]} ∪ names) st'.
Proof.
  intros [Hops Hdom]. destruct st as [params ops]. simpl in *.
  unfold define_op, accessor_call, mbind, result_bind, rbind. simpl.
  assert (Hins : ∀ v, declared_so_far raw ops0 ({[name]} ∪ names)
                        (<[name := v]> params, {[name]} ∪ ops)).
  { intros v. split; simpl; [set_solver|]. rewrite dom_insert_L. set_solver. }
  destruct (params !! name) as [v|].
  - destruct (acc_cast a v) as [t|e]; [|discriminate].
    destruct (_ && _); [discriminate|].
    intros [= <- <-]. apply Hins.
  - destruct kw as [|d|]; [discriminate| |].
    + intros [= <- <-]. apply Hins.
    + intros [= <- <-]. split; simpl; set_solver.
Qed.

Lemma declared_by_hand (raw : record) (ops0 names : gset string) (params : record)
    (ops : gset string) (name : string) :
  declared_so_far raw ops0 names (params, ops) →
  declared_so_far raw ops0 ({[name]} ∪ names) (params, {[name]} ∪ ops).
Proof. intros [Hops Hdom]. simpl in *. split; simpl; set_solver. Qed.

Lemma declared_assign (raw : record) (ops0 names : gset string) (st : decl_state)
    (name : string) (v : value) :
  name ∈ names →
  declared_so_far raw ops0 names st →
  declared_so_far raw ops0 names (<[name := v]> st.1, st.2).
Proof.
  intros Hin [Hops Hdom]. split; simpl; [exact Hops|].
  rewrite dom_insert_L. set_solver.
Qed.

(** After its declarations [__init__] holds the table of the declared names
    and a mapping whose undeclared keys are those of the raw mapping. *)
Lemma declare_ops_state (raw : record) (ops0 : gset string) (q : P.t) (st : decl_state) :
  declare_ops raw ops0 = Ok (q, st) →
  declared_so_far raw ops0 option_names st.
Proof.
  intros Hd. pose proof (declared_start raw ops0) as Hinv.
  unfold declare_ops, mbind, result_bind, rbind in Hd. cbv beta iota zeta in Hd.
  do 21 declare_step Hd Hinv @declared_define_op.
  match type of Hinv with declared_so_far _ _ _ ?s => destruct s as [params ops] end.
  cbn [fst snd] in Hd.
  apply (declared_by_hand _ _ _ _ _ "extra_options") in Hinv.
  apply (declared_by_hand _ _ _ _ _ "extra") in Hinv.
  apply (declared_by_hand _ _ _ _ _ "query") in Hinv.
  declare_step Hd Hinv @declared_define_op.
  injection Hd as <- <-.
  apply declared_assign; [|exact Hinv].
  set_solver.
Qed.


End OptionFacts.

(** * The properties on concrete runs *)

Section Examples.
#[local] Existing Instance Demo.collaborators.
#[local] Existing Instance Demo.backend.


(** C9 on an example: with [skip_by=email] and a stored document under the
    incoming email, [create] returns without persisting anything and the
    world is as before. *)
Lemma create_skips_existing_example :
  let self := Demo.with_options (Demo.custom "create" "" [] [] false (Some ["email"])) in
  let w := Demo.world0 two_docs in
  (create self bob w).1 = (Ok tt, w)
  ∧ persisted (create self bob w).2 = []
  ∧ process self bob w = create self bob w.
Proof.
  intros self w.
  destruct (create_skips_existing self bob ["email"]
              (<["_count" := VInt 1]> (<["_limit" := VInt (-1)]> {["email" := VStr "a@b.com"]}))
              (Count 2) w eq_refl)
    as (E & Hp & Hproc).
  - vm_compute. reflexivity.
  - vm_compute. reflexivity.
  - reflexivity.
  - split; [rewrite E; reflexivity|]. split; [exact Hp|].
    apply Hproc; reflexivity.
Defined.


(** C6 on an example: a create with [keep_source_logs] off on data that
    carries one prior log entry persists the current entry followed by the
    prior one. *)
Lemma create_keeps_incoming_logs_example :
  let self := Demo.processor "create" "" in
  let data : record := <["a" := VInt 1]> {["logs" := VList [prior_entry]]} in
  ∃ saved, persisted (create self data (Demo.world0 ∅)).2 = [(klass, saved)]
           ∧ saved !! "logs" = Some (VList [job_entry; prior_entry]).
Proof.
  intros self data.
  assert (Hmeta : extract_meta self (rename_id self data)
                  = Ok ({| meta_log := {["job" := VStr "j1"]}; meta_source := VDict ∅ |},
                        data)).
  { vm_compute. reflexivity. }
  exact (create_keeps_incoming_logs self data [prior_entry] _ data (Demo.world0 ∅)
           eq_refl eq_refl eq_refl eq_refl Hmeta).
Defined.

(** C6 as stated fails: [keep_source_logs] is off, the incoming data carries
    a prior log entry, and the record [create] persists still holds that
    entry behind the current one; its [logs] is not the current entry alone. *)
Lemma create_drops_no_logs_counterexample :
  let self := Demo.processor "create" "" in
  let data : record := <["a" := VInt 1]> {["logs" := VList [prior_entry]]} in
  P.keep_source_logs (params self) = false
  ∧ data !! "logs" = Some (VList [prior_entry])
  ∧ ∃ saved, persisted (create self data (Demo.world0 ∅)).2 = [(klass, saved)]
             ∧ saved !! "logs" = Some (VList [job_entry; prior_entry])
             ∧ saved !! "logs" ≠ Some (VList [job_entry]).
Proof.
  intros self data. split; [reflexivity|]. split; [reflexivity|].
  eexists. split; [vm_compute; reflexivity|].
  assert (E : ∀ x : option value,
            x = Some (VList [job_entry; prior_entry]) →
            x = Some (VList [job_entry; prior_entry]) ∧ x ≠ Some (VList [job_entry])).
  { intros x ->. split; [reflexivity|discriminate]. }
  apply E. vm_compute. reflexivity.
Qed.



(** C3 on examples: an unknown key is refused with its name, a mapping of
    declared keys is accepted and its [op] split, and a mapping that lacks
    the required [name] fails on that declaration before validation. *)
Example init_refuses_unknown_key :
  let raw : record :=
    <["name" := VStr "users"]> (<["op" := VStr "update:email"]> {["overwrit" := VBool true]}) in
  init raw None ∅ = Raise (DKeyError "Invalid operations [overwrit]").
Proof. vm_compute. reflexivity. Qed.

Example init_accepts_declared_keys :
  let raw : record :=
    <["name" := VStr "users"]> (<["op" := VStr "update:email"]> {["overwrite" := VBool false]}) in
  ∃ self ops, init raw None ∅ = Ok (self, ops, [])
              ∧ P.op (params self) = "update"
              ∧ P.op_params (params self) = "email"
              ∧ P.overwrite (params self) = false
              ∧ ops = option_names.
Proof.
  intros raw. eexists _, _. split; [vm_compute; reflexivity|].
  repeat split; vm_compute; reflexivity.
Qed.

Example init_fails_on_missing_name :
  let raw : record := {["overwrit" := VBool true]} in
  init raw None ∅ = Raise (DKeyError "Missing key or invalid value for `name`").
Proof. vm_compute. reflexivity. Qed.

(** C4 on examples. *)
Example build_query_params_found :
  build_query_params (Demo.processor "update" "email") bob ["email"]
    = Ok (<["_limit" := VInt (-1)]> {["email" := VStr "a@b.com"]}).
Proof. vm_compute. reflexivity. Qed.

Example build_query_params_no_keys :
  build_query_params (Demo.processor "update" "") bob []
    = Raise (DValueError "empty op params").
Proof. reflexivity. Qed.

Example build_query_params_absent_key :
  ∃ dump, build_query_params (Demo.processor "update" "phone") bob ["phone"]
          = Raise (DValueError ("update query is empty for:" +:+ newline +:+ dump))
          ∧ dump = log_data_format (Demo.processor "update" "phone")
                     (Some (VList [VStr "phone"])) (Some bob)
          ∧ dump = "QUERY: `[phone]`" +:+ newline +:+ "DATA keys: `[email, name]`"
                   +:+ newline +:+ "DATA dict: {0 keys}".
Proof. eexists. repeat split; vm_compute; reflexivity. Qed.

(** The end-to-end update of the specification: [update:email] with
    [overwrite] on a stored [{email, name: Alice, age: 30}] persists
    [{email, name: Bob, age: 30}] with the current log entry as [logs]. *)
Example update_overwrites_name :
  let self := Demo.processor "update" "email" in
  let w := Demo.world0 {[1%nat := alice]} in
  (process self bob w).1.1 = Ok tt
  ∧ persisted (process self bob w).2
    = [((Some 1%nat, alice),
        <["logs" := VList [job_entry]]>
          (<["email" := VStr "a@b.com"]> (<["name" := VStr "Bob"]> {["age" := VInt 30]})))]
  ∧ store (process self bob w).1.2
    = {[1%nat := <["logs" := VList [job_entry]]>
                   (<["email" := VStr "a@b.com"]>
                      (<["name" := VStr "Bob"]> {["age" := VInt 30]}))]}.
Proof. intros self w. repeat split; vm_compute; reflexivity. Qed.

(** An upsert with no match creates the record: the incoming data plus the
    log entry. *)
Example upsert_creates_when_absent :
  let self := Demo.processor "upsert" "sku" in
  let incoming : record := <["sku" := VStr "X1"]> {["qty" := VInt 5]} in
  persisted (process self incoming (Demo.world0 ∅)).2
    = [(klass, <["logs" := VList [job_entry]]> incoming)].
Proof. intros self incoming. vm_compute. reflexivity. Qed.

End Examples.

(** * Further properties of the processor *)

Section TraceFacts.
Context {B O : Type}.

Lemma traces_ret {A} (P : event O → Prop) (a : A) : traces P (mret a : M B O A).
Proof. intros w. constructor. Qed.

Lemma traces_throw {A} (P : event O → Prop) (e : exn) : traces P (throw e : M B O A).
Proof. intros w. constructor. Qed.

Lemma traces_lift {A} (P : event O → Prop) (r : result A) : traces P (lift r : M B O A).
Proof. intros w. constructor. Qed.

Lemma traces_log (P : event O → Prop) (lv : level) (msg : string) :
  P (ELog lv msg) → traces P (log lv msg : M B O unit).
Proof. intros HP w. constructor; [exact HP|constructor]. Qed.

Lemma traces_bind {A A'} (P : event O → Prop) (m : M B O A) (f : A → M B O A') :
  traces P m → (∀ a, traces P (f a)) → traces P (x ← m; f x).
Proof.
  intros Hm Hf w. rewrite bind_run. specialize (Hm w).
  destruct (m w) as [[[a|e] w1] t1]; simpl in *; [|exact Hm].
  specialize (Hf a w1). destruct (f a w1) as [[r w2] t2]; simpl in *.
  apply Forall_app. split; assumption.
Qed.

Lemma traces_finally {A} (P : event O → Prop) (body : M B O A) (fin : M B O unit) :
  traces P body → traces P fin → traces P (try_finally body fin).
Proof.
  intros Hb Hf w. unfold try_finally. specialize (Hb w).
  destruct (body w) as [[r w1] t1]; simpl in *.
  specialize (Hf w1). destruct (fin w1) as [[rf w2] t2]; simpl in *.
  apply Forall_app. split; assumption.
Qed.

Lemma traces_logs_only (P : event O → Prop) (m : M B O unit) :
  (∀ lv msg, P (ELog lv msg)) → (∀ w, Forall (fun e => ∃ lv msg, e = ELog lv msg) (m w).2) →
  traces P m.
Proof.
  intros HP Hm w. eapply Forall_impl; [apply Hm|].
  intros e (lv & msg & ->). apply HP.
Qed.

Lemma not_persist_persisted (t : list (event O)) :
  Forall not_persist t → persisted t = [].
Proof.
  induction 1 as [|e t He _ IH]; [reflexivity|].
  destruct e; simpl in *; [exact IH|contradiction|exact IH].
Qed.

Lemma not_delete_deleted (t : list (event O)) :
  Forall not_delete t → deleted t = [].
Proof.
  induction 1 as [|e t He _ IH]; [reflexivity|].
  destruct e; simpl in *; [exact IH|exact IH|contradiction].
Qed.

End TraceFacts.

Section MoreEngineFacts.
Context `{Collaborators} {B O : Type} `{Backend B O}.
Variable self : Base.

#[local] Abbreviation p := (params self).

Lemma traces_for_each {A} (P : event O → Prop) (l : list A) (body : A → M B O unit) :
  (∀ x, traces P (body x)) → traces P (for_each l body).
Proof.
  intros Hb. induction l as [|x l IH]; simpl.
  - apply traces_ret.
  - apply traces_bind; [apply Hb|intros; apply IH].
Qed.

Lemma for_each_cons_run {A} (x : A) (l : list A) (body : A → M B O unit) (w : world B) :
  for_each (x :: l) body w =
    match body x w with
    | (Ok _, w1, t1) => let '(r, w2, t2) := for_each l body w1 in (r, w2, t1 ++ t2)
    | (Raise e, w1, t1) => (Raise e, w1, t1)
    end.
Proof. reflexivity. Qed.

Lemma traces_quiet_logs {A} (P : event O → Prop) (m : M B O A) :
  (∀ w, Forall (fun e => ∃ lv msg, e = ELog lv msg) (m w).2) →
  (∀ lv msg, P (ELog lv msg)) → traces P m.
Proof.
  intros Hm HP w. eapply Forall_impl; [apply Hm|].
  intros e (lv & msg & ->). apply HP.
Qed.

Section Generic.
Variable P : event O → Prop.
Hypothesis P_log : ∀ lv msg, P (ELog lv msg).

Lemma traces_tick : traces P (tick : M B O nat).
Proof. intros w. constructor. Qed.

Lemma traces_lookup (q : record) : traces P (lookup q : M B O (collection O)).
Proof. intros w. constructor. Qed.

Lemma traces_resolve_sentinels (kvs : list (string * value)) (extra_f : record) :
  traces P (resolve_sentinels kvs extra_f : M B O record).
Proof.
  revert extra_f. induction kvs as [|[k v] kvs IH]; intros extra_f; simpl.
  - apply traces_ret.
  - apply traces_bind; [|intros; apply IH].
    destruct v; try apply traces_ret.
    destruct (String.eqb s "__gid__");
      [apply traces_bind; [apply traces_tick|intros; apply traces_ret]|].
    destruct (String.eqb s "__today__");
      [apply traces_bind; [apply traces_tick|intros; apply traces_ret]|apply traces_ret].
Qed.

Lemma traces_add_extra (data : record) : traces P (add_extra self data : M B O record).
Proof.
  unfold add_extra. destruct (P.extra p); [|apply traces_ret].
  apply traces_bind; [apply traces_resolve_sentinels|]. intros extra_f.
  apply traces_bind; [apply traces_lift|]. intros kw. apply traces_ret.
Qed.

Lemma traces_objects_to_update (keys : list string) (data : record) :
  traces P (objects_to_update self keys data : M B O (record * collection O)).
Proof.
  unfold objects_to_update.
  apply traces_bind.
  - apply traces_for_each. intros kk.
    destruct (_ && _); [apply traces_log, P_log|apply traces_ret].
  - intros _. apply traces_bind; [apply traces_lift|]. intros q.
    apply traces_bind; [apply traces_lookup|]. intros c. apply traces_ret.
Qed.

Lemma traces_diff (d1 d2 : record) (keys : list string) :
  traces P (diff d1 d2 keys : M B O unit).
Proof.
  unfold diff. apply traces_bind.
  - apply traces_for_each. intros kv. apply traces_log, P_log.
  - intros _. destruct (bool_decide _); [apply traces_log, P_log|apply traces_ret].
Qed.

Lemma traces_save (obj : O) (d : record) (meta : Meta) :
  (P.dry_run p = false → ∀ d', P (EPersist obj d')) →
  traces P (save self obj d meta).
Proof.
  intros HP w.
  destruct (save_cases self obj d meta w)
    as [(_ & ->)|[(_ & e & _ & ->)|[(_ & d' & _ & _ & ->)|
        (_ & d' & _ & Hdry & [(r & b & _ & ->)|(e & _ & ->)])]]]; simpl;
    repeat constructor; auto.
Qed.

Lemma traces_delete_obj (obj : O) :
  (P.dry_run p = false → P (EDelete obj)) →
  traces P (delete_obj self obj).
Proof.
  intros HP w. unfold delete_obj, try_finally.
  destruct (P.dry_run p); simpl; [repeat constructor; auto|].
  unfold remove. destruct (obj_delete obj (store w)); simpl; repeat constructor; auto.
Qed.

Lemma traces_create (data : record) :
  (P.dry_run p = false → ∀ d', P (EPersist klass d')) →
  traces P (create self data).
Proof.
  intros HP. unfold create. apply traces_bind.
  - destruct (P.skip_by p); [|apply traces_ret].
    apply traces_bind; [apply traces_lift|]. intros q.
    apply traces_bind; [apply traces_lookup|]. intros c.
    destruct (found c); [|apply traces_ret].
    apply traces_bind; [apply traces_log, P_log|intros; apply traces_ret].
  - intros [|]; [apply traces_ret|].
    apply traces_bind; [apply traces_lift|]. intros [meta d].
    apply traces_bind; [apply traces_save, HP|]. intros _. apply traces_log, P_log.
Qed.

Lemma traces_update_objects (q : record) (objects : collection O) (data : record) :
  (P.dry_run p = false → ∀ o d', P (EPersist o d')) →
  traces P (update_objects self q objects data).
Proof.
  intros HP. unfold update_objects.
  apply traces_bind; [apply traces_lift|]. intros n.
  apply traces_bind.
  { destruct (bool_decide _); [apply traces_log, P_log|apply traces_ret]. }
  intros _. apply traces_bind; [apply traces_lift|]. intros [meta d].
  apply traces_bind; [apply traces_lift|]. intros l.
  apply traces_bind; [|intros; apply traces_ret].
  apply traces_for_each. intros each. unfold update_each.
  apply traces_bind.
  { destruct (P.show_diff p); [apply traces_diff|apply traces_ret]. }
  intros _. apply traces_bind.
  { destruct (P.source_consolidation_mode p); [apply traces_ret|].
    destruct (truthy _); [apply traces_log, P_log|apply traces_ret]. }
  intros _. apply traces_bind; [apply traces_save; auto|].
  intros _. apply traces_log, P_log.
Qed.

End Generic.

Lemma tracked_quiet {A} (m : M B O A) : quiet m → tracked m.
Proof. intros Hq w _ _. apply Hq. Qed.

Lemma tracked_bind {A A'} (m : M B O A) (f : A → M B O A') :
  tracked m → (∀ a, tracked (f a)) → tracked (x ← m; f x).
Proof.
  intros Hm Hf w. rewrite bind_run. specialize (Hm w).
  destruct (m w) as [[[a|e] w1] t1]; simpl in *; [|exact Hm].
  specialize (Hf a w1). destruct (f a w1) as [[r w2] t2]; simpl in *.
  rewrite persisted_app, deleted_app. intros Hp Hd.
  apply app_eq_nil in Hp as [Hp1 Hp2]. apply app_eq_nil in Hd as [Hd1 Hd2].
  rewrite (Hf Hp2 Hd2). apply Hm; assumption.
Qed.

Lemma tracked_for_each {A} (l : list A) (body : A → M B O unit) :
  (∀ x, tracked (body x)) → tracked (for_each l body).
Proof.
  intros Hb. induction l as [|x l IH]; simpl.
  - apply tracked_quiet, quiet_ret.
  - apply tracked_bind; [apply Hb|intros; apply IH].
Qed.

Lemma tracked_save (obj : O) (d : record) (meta : Meta) : tracked (save self obj d meta).
Proof.
  intros w.
  destruct (save_cases self obj d meta w)
    as [(_ & ->)|[(_ & e & _ & ->)|[(_ & d' & _ & _ & ->)|
        (_ & d' & _ & Hdry & [(r & b & _ & ->)|(e & _ & ->)])]]]; simpl;
    try reflexivity; discriminate.
Qed.

Lemma tracked_delete_obj (obj : O) : tracked (delete_obj self obj).
Proof.
  intros w. unfold delete_obj, try_finally.
  destruct (P.dry_run p); simpl; [reflexivity|].
  unfold remove. destruct (obj_delete obj (store w)); simpl; try reflexivity; discriminate.
Qed.

Lemma tracked_create (data : record) : tracked (create self data).
Proof.
  unfold create. apply tracked_bind.
  - apply tracked_quiet. destruct (P.skip_by p); auto using quiet_lookup with quiet.
  - intros [|]; [apply tracked_quiet, quiet_ret|].
    apply tracked_bind; [apply tracked_quiet, quiet_lift|]. intros [meta d].
    apply tracked_bind; [apply tracked_save|]. intros _. apply tracked_quiet, quiet_log.
Qed.

Lemma tracked_update_objects (q : record) (objects : collection O) (data : record) :
  tracked (update_objects self q objects data).
Proof.
  unfold update_objects.
  apply tracked_bind; [apply tracked_quiet, quiet_lift|]. intros n.
  apply tracked_bind; [apply tracked_quiet; auto with quiet|]. intros _.
  apply tracked_bind; [apply tracked_quiet, quiet_lift|]. intros [meta d].
  apply tracked_bind; [apply tracked_quiet, quiet_lift|]. intros l.
  apply tracked_bind; [|intros; apply tracked_quiet, quiet_ret].
  apply tracked_for_each. intros each. unfold update_each.
  apply tracked_bind.
  { apply tracked_quiet. destruct (P.show_diff p); [|apply quiet_ret].
    unfold diff. apply quiet_bind.
    - apply quiet_for_each. intros; apply quiet_log.
    - intros _. auto with quiet. }
  intros _. apply tracked_bind; [apply tracked_quiet; auto with quiet|]. intros _.
  apply tracked_bind; [apply tracked_save|]. intros _. apply tracked_quiet, quiet_log.
Qed.

Lemma tracked_dispatch (data : record) : tracked (dispatch self data).
Proof.
  unfold dispatch.
  destruct (_ && _); [apply tracked_quiet, quiet_throw|].
  destruct (String.eqb (P.op p) "create"); [apply tracked_create|].
  destruct (String.eqb (P.op p) "update").
  { apply tracked_bind; [apply tracked_quiet, quiet_objects_to_update|].
    intros [q objects]. destruct (negb (found objects)).
    - apply tracked_quiet, quiet_log_not_found.
    - apply tracked_bind; [apply tracked_update_objects|].
      intros; apply tracked_quiet, quiet_ret. }
  destruct (String.eqb (P.op p) "upsert").
  { apply tracked_bind; [apply tracked_quiet, quiet_objects_to_update|].
    intros [q objects]. destruct (found objects).
    - apply tracked_bind; [apply tracked_update_objects|].
      intros; apply tracked_quiet, quiet_ret.
    - apply tracked_create. }
  destruct (String.eqb (P.op p) "delete"); [|apply tracked_quiet, quiet_throw].
  apply tracked_bind; [apply tracked_quiet, quiet_objects_to_update|].
  intros [q objects]. destruct (negb (found objects)).
  - apply tracked_quiet, quiet_log_not_found.
  - apply tracked_bind; [apply tracked_quiet, quiet_lift|]. intros objs.
    apply tracked_bind.
    + apply tracked_for_each. intros o.
      apply tracked_bind; [apply tracked_delete_obj|].
      intros; apply tracked_quiet, quiet_ret.
    + intros _. apply tracked_quiet. auto with quiet.
Qed.

(** The dispatch emits only events that [P] accepts, when [P] accepts the
    log lines, and the persist and delete calls outside [dry_run]. *)
Lemma traces_dispatch (P : event O → Prop) (data : record) :
  (∀ lv msg, P (ELog lv msg)) →
  (P.dry_run p = false → P.op p ≠ "delete" → ∀ o d, P (EPersist o d)) →
  (P.dry_run p = false → P.op p = "delete" → ∀ o, P (EDelete o)) →
  traces P (dispatch self data).
Proof.
  intros Hlog Hpersist Hdelete. unfold dispatch.
  destruct (_ && _); [apply traces_throw|].
  destruct (String.eqb (P.op p) "create") eqn:Ec.
  { apply String.eqb_eq in Ec. apply traces_create; [exact Hlog|].
    intros Hd d. apply Hpersist; [exact Hd|]. rewrite Ec. discriminate. }
  destruct (String.eqb (P.op p) "update") eqn:Eu.
  { apply String.eqb_eq in Eu.
    apply traces_bind; [apply traces_objects_to_update, Hlog|].
    intros [q objects]. destruct (negb (found objects)).
    - apply traces_log, Hlog.
    - apply traces_bind; [|intros; apply traces_ret].
      apply traces_update_objects; [exact Hlog|].
      intros Hd o d. apply Hpersist; [exact Hd|]. rewrite Eu. discriminate. }
  destruct (String.eqb (P.op p) "upsert") eqn:Es.
  { apply String.eqb_eq in Es.
    assert (Hp : P.dry_run p = false → ∀ o d, P (EPersist o d)).
    { intros Hd o d. apply Hpersist; [exact Hd|]. rewrite Es. discriminate. }
    apply traces_bind; [apply traces_objects_to_update, Hlog|].
    intros [q objects]. destruct (found objects).
    - apply traces_bind; [|intros; apply traces_ret].
      apply traces_update_objects; assumption.
    - apply traces_create; [exact Hlog|]. intros Hd d. apply Hp, Hd. }
  destruct (String.eqb (P.op p) "delete") eqn:Ed; [|apply traces_throw].
  apply String.eqb_eq in Ed.
  apply traces_bind; [apply traces_objects_to_update, Hlog|].
  intros [q objects]. destruct (negb (found objects)).
  - apply traces_log, Hlog.
  - apply traces_bind; [apply traces_lift|]. intros objs.
    apply traces_bind.
    + apply traces_for_each. intros o.
      apply traces_bind; [|intros; apply traces_ret].
      apply traces_delete_obj; [exact Hlog|]. intros Hd. apply Hdelete; assumption.
    + intros _. apply traces_bind; [apply traces_lift|]. intros n. apply traces_log, Hlog.
Qed.

Lemma traces_process (P : event O → Prop) (data : record) :
  (∀ lv msg, P (ELog lv msg)) →
  (P.dry_run p = false → P.op p ≠ "delete" → ∀ o d, P (EPersist o d)) →
  (P.dry_run p = false → P.op p = "delete" → ∀ o, P (EDelete o)) →
  traces P (process self data).
Proof.
  intros Hlog Hpersist Hdelete. unfold process.
  apply traces_bind; [apply traces_add_extra|].
  intros d. apply traces_dispatch; assumption.
Qed.

Lemma tracked_process (data : record) : tracked (process self data).
Proof.
  unfold process. apply tracked_bind; [apply tracked_quiet, quiet_add_extra|].
  intros d. apply tracked_dispatch.
Qed.

(** The persist primitive is called only by the create, update and upsert
    operations, the delete primitive only by the delete operation: a record
    processed with an operation other than [delete] deletes nothing, and a
    record processed with [delete] persists nothing. *)
Theorem process_keeps_primitives_apart (data : record) (w : world B) :
  (P.op p ≠ "delete" → deleted (process self data w).2 = [])
  ∧ (P.op p = "delete" → persisted (process self data w).2 = []).
Proof.
  split; intros Hop.
  - apply not_delete_deleted.
    apply (traces_process not_delete data); simpl; auto; try contradiction.
  - apply not_persist_persisted.
    apply (traces_process not_persist data); simpl; auto; try contradiction.
Qed.

(** Under [dry_run] processing a record, with any of the operations, emits
    log lines only, calls neither the persist nor the delete primitive and
    leaves the backend state as it was. *)
Theorem dry_run_never_mutates (data : record) (w : world B) :
  P.dry_run p = true →
  Forall is_log (process self data w).2
  ∧ persisted (process self data w).2 = []
  ∧ deleted (process self data w).2 = []
  ∧ store (process self data w).1.2 = store w.
Proof.
  intros Hdry.
  assert (Hlogs : Forall is_log (process self data w).2).
  { apply (traces_process is_log data); simpl; auto; rewrite Hdry; discriminate. }
  assert (Hp : persisted (process self data w).2 = []).
  { apply not_persist_persisted. eapply Forall_impl; [exact Hlogs|].
    intros [] He; simpl in *; auto. }
  assert (Hd : deleted (process self data w).2 = []).
  { apply not_delete_deleted. eapply Forall_impl; [exact Hlogs|].
    intros [] He; simpl in *; auto. }
  repeat split; try assumption.
  apply tracked_process; assumption.
Qed.

(** An [update], [upsert] or [delete] configured without key fields is
    refused for every record, before any lookup: the dispatch raises the
    missing-parameters error, emits nothing and leaves the world alone. *)
Theorem missing_op_params_refused (data : record) (w : world B) :
  P.op p ∈ ["update"; "upsert"; "delete"] →
  op_keys self = [] →
  dispatch self data w
    = (Raise (DValueError ("missing op params for `" +:+ P.op p +:+ "` operation")), w, [])
  ∧ is_ok (process self data w).1.1 = false
  ∧ Forall is_log (process self data w).2.
Proof.
  intros Hop Hkeys.
  assert (E : ∀ d w', dispatch self d w'
              = (Raise (DValueError ("missing op params for `" +:+ P.op p
                                     +:+ "` operation")), w', [])).
  { intros d w'. unfold dispatch.
    rewrite (bool_decide_eq_true_2 _ Hop), Hkeys. reflexivity. }
  split; [apply E|].
  unfold process. rewrite bind_run.
  pose proof (traces_add_extra is_log data w) as Hlogs.
  destruct (add_extra self data w) as [[[d|e] w1] t1]; simpl in *.
  - rewrite E. simpl. rewrite app_nil_r. split; [reflexivity|exact Hlogs].
  - split; [reflexivity|exact Hlogs].
Qed.

(** An operation that is none of [create], [update], [upsert] and [delete]
    (an empty one included) is refused for every record with the error that
    asks for the [op] parameter, with or without key fields; nothing is
    looked up, logged, persisted or deleted. *)
Theorem unknown_op_refused (data : record) (w : world B) :
  P.op p ∉ ["create"; "update"; "upsert"; "delete"] →
  dispatch self data w
    = (Raise (DKeyError "Must provide `op` param. e.g. op=update:key1,key2"), w, []).
Proof.
  intros Hop. unfold dispatch.
  assert (Hne : ∀ s, s ∈ ["create"; "update"; "upsert"; "delete"] →
                     String.eqb (P.op p) s = false).
  { intros s Hs. apply String.eqb_neq. intros E. apply Hop. rewrite E. exact Hs. }
  rewrite bool_decide_eq_false_2.
  - simpl. rewrite !Hne; [reflexivity| | | |];
      repeat first [apply list_elem_of_here|apply list_elem_of_further].
  - intros Hin. apply Hop. right. exact Hin.
Qed.

(** The dispatch of an [upsert] with key fields: after the lookup, matches
    are updated as by [update] and, with no match, the record is created as
    by [create], from the world and after the events of the lookup. *)
Theorem upsert_updates_or_creates (data q : record) (objects : collection O)
    (w w1 : world B) (t1 : list (event O)) :
  P.op p = "upsert" →
  op_keys self ≠ [] →
  objects_to_update self (op_keys self) data w = (Ok (q, objects), w1, t1) →
  (found objects = false →
     dispatch self data w
       = let '(r, w2, t2) := create self data w1 in (r, w2, t1 ++ t2))
  ∧ (found objects = true →
     dispatch self data w
       = let '(r, w2, t2) := update_objects self q objects data w1 in
         (match r with Ok _ => Ok tt | Raise e => Raise e end, w2, t1 ++ t2)).
Proof.
  intros Hop Hkeys Hobj.
  assert (E : dispatch self data =
              ('(params, objects) ← objects_to_update self (op_keys self) data;
               if found objects
               then _ ← update_objects self params objects data; mret tt
               else create self data)).
  { unfold dispatch. rewrite Hop.
    rewrite (bool_decide_eq_false_2 _ Hkeys), andb_false_r. reflexivity. }
  rewrite E, bind_run, Hobj. split; intros Hf; rewrite Hf.
  - reflexivity.
  - rewrite bind_run.
    destruct (update_objects self q objects data w1) as [[[n|e] w2] t2]; simpl.
    + rewrite app_nil_r. reflexivity.
    + reflexivity.
Qed.

(** The line [save] logs on its way out.  Once the data is not empty and
    [pre_save] has gone through, [save] ends with the [SAVED] line in every
    case: under [dry_run], where it returns the data it would persist, after
    a successful call of the persist primitive, and after a failed one,
    whose exception it passes on with the backend state untouched. *)
Theorem save_logs_on_every_exit (obj : O) (d d' : record) (meta : Meta) (w : world B) :
  dict_empty d = false →
  pre_save self d meta = Ok d' →
  let saved_line :=
    ELog DEBUG ("SAVED " +:+ repr obj +:+ " with data:" +:+ newline
                +:+ log_data_format self None (Some d')) in
  (∃ t, (save self obj d meta w).2 = t ++ [saved_line])
  ∧ (P.dry_run p = true →
     save self obj d meta w = (Ok (VDict d'), w, [ELog WARNING "DRY RUN"; saved_line]))
  ∧ (P.dry_run p = false →
     ∀ e, _save obj d' (store w) = Raise e →
          save self obj d meta w = (Raise e, w, [EPersist obj d'; saved_line]))
  ∧ (P.dry_run p = false →
     ∀ r b, _save obj d' (store w) = Ok (r, b) →
            save self obj d meta w
              = (Ok r, {| store := b; clock := clock w |}, [EPersist obj d'; saved_line])).
Proof.
  intros Hne Hpre saved_line.
  destruct (save_cases self obj d meta w)
    as [(He & _)|[(_ & e & Hp & _)|[(_ & d1 & Hp & Hdry & Es)|
        (_ & d1 & Hp & Hdry & [(r & b & Hs & Es)|(e & Hs & Es)])]]];
    try congruence;
    rewrite Hpre in Hp; injection Hp as <-; rewrite Es.
  - split; [exists [ELog WARNING "DRY RUN"]; reflexivity|].
    split; [reflexivity|]. split; intros; congruence.
  - split; [exists [EPersist obj d']; reflexivity|].
    split; [congruence|]. split; [intros; congruence|].
    intros _ r' b' E. rewrite Hs in E. injection E as <- <-. reflexivity.
  - split; [exists [EPersist obj d']; reflexivity|].
    split; [congruence|]. split; [|intros; congruence].
    intros _ e' E. rewrite Hs in E. injection E as <-. reflexivity.
Qed.

(** The delete step outside [dry_run], when the primitive succeeds. *)
Lemma delete_obj_run (o : O) (b : B) (w : world B) :
  P.dry_run p = false →
  obj_delete o (store w) = Ok b →
  delete_obj self o w
    = (Ok VNone, {| store := b; clock := clock w |},
       [EDelete o;
        ELog DEBUG ("DELETED " +:+ repr o +:+ " with data:" +:+ newline
                    +:+ log_data_format self None (Some (to_dict o)))]).
Proof.
  intros Hdry Hdel. unfold delete_obj, try_finally. rewrite Hdry.
  unfold remove. rewrite Hdel. reflexivity.
Qed.

(** The delete loop outside [dry_run], while the delete primitive succeeds:
    every object is deleted, in order, and the loop completes. *)
Lemma delete_loop_run (l : list O) (w : world B) :
  P.dry_run p = false →
  (∀ o, o ∈ l → ∀ b, is_ok (obj_delete o b) = true) →
  (for_each l (fun obj => _ ← delete_obj self obj; mret tt) w).1.1 = Ok tt
  ∧ deleted (for_each l (fun obj => _ ← delete_obj self obj; mret tt) w).2 = l.
Proof.
  intros Hdry Hdel. revert w. induction l as [|o l IH]; intros w.
  - split; reflexivity.
  - pose proof (Hdel o (list_elem_of_here o l) (store w)) as Ho.
    assert (Hdel' : ∀ o', o' ∈ l → ∀ b, is_ok (obj_delete o' b) = true)
      by (intros o' Ho'; apply Hdel, list_elem_of_further, Ho').
    specialize (IH Hdel').
    destruct (obj_delete o (store w)) as [b|e] eqn:Eo; [|discriminate].
    assert (Estep : (_ ← delete_obj self o; mret tt) w
                    = (Ok tt, {| store := b; clock := clock w |},
                       [EDelete o;
                        ELog DEBUG ("DELETED " +:+ repr o +:+ " with data:" +:+ newline
                                    +:+ log_data_format self None (Some (to_dict o)))])).
    { rewrite bind_run, (delete_obj_run o b w Hdry Eo). reflexivity. }
    rewrite (for_each_cons_run o l _ w), Estep.
    destruct (IH {| store := b; clock := clock w |}) as [Hr Hd].
    destruct (for_each l _ {| store := b; clock := clock w |}) as [[r w2] t2].
    simpl in *. split; [exact Hr|]. rewrite Hd. reflexivity.
Qed.

(** A [delete] with key fields, outside [dry_run], whose lookup answers a
    list of matches: while the delete primitive does not fail on them, the
    dispatch completes, deletes every match, each once and in the order of the
    lookup, and persists nothing. *)
Theorem delete_removes_every_match (data q : record) (l : list O) (w w1 : world B)
    (t1 : list (event O)) :
  P.op p = "delete" →
  P.dry_run p = false →
  op_keys self ≠ [] →
  objects_to_update self (op_keys self) data w = (Ok (q, Objects l), w1, t1) →
  l ≠ [] →
  (∀ o, o ∈ l → ∀ b, is_ok (obj_delete o b) = true) →
  (dispatch self data w).1.1 = Ok tt
  ∧ deleted (dispatch self data w).2 = l
  ∧ persisted (dispatch self data w).2 = [].
Proof.
  intros Hop Hdry Hkeys Hobj Hl Hdel.
  assert (Hq : persisted t1 = [] ∧ deleted t1 = []).
  { destruct (quiet_objects_to_update self (op_keys self) data w) as (_ & Hp & Hd).
    rewrite Hobj in Hp, Hd. split; assumption. }
  destruct Hq as [Hp1 Hd1].
  assert (Hnp : persisted (dispatch self data w).2 = []).
  { apply not_persist_persisted.
    apply (traces_dispatch not_persist data); simpl; auto; try contradiction. }
  split; [|split; [|exact Hnp]].
  - unfold dispatch. rewrite Hop.
    rewrite (bool_decide_eq_false_2 _ Hkeys), andb_false_r. simpl.
    rewrite bind_run, Hobj.
    assert (Hfound : found (Objects l) = true) by (destruct l; [congruence|reflexivity]).
    rewrite Hfound. simpl. rewrite bind_run. unfold lift at 1. rewrite bind_run.
    destruct (delete_loop_run l w1 Hdry Hdel) as [Hr _].
    destruct (for_each l _ w1) as [[r w2] t2]. simpl in *. subst r. reflexivity.
  - unfold dispatch. rewrite Hop.
    rewrite (bool_decide_eq_false_2 _ Hkeys), andb_false_r. simpl.
    rewrite bind_run, Hobj.
    assert (Hfound : found (Objects l) = true) by (destruct l; [congruence|reflexivity]).
    rewrite Hfound. simpl. rewrite bind_run. unfold lift at 1. rewrite bind_run.
    destruct (delete_loop_run l w1 Hdry Hdel) as [Hr Hd].
    destruct (for_each l _ w1) as [[r w2] t2]. simpl in *. subst r. simpl.
    rewrite !deleted_app, Hd1, Hd. simpl. rewrite app_nil_r. reflexivity.
Qed.

(** What the [pop_empty] loop returns is part of what it was given, and
    holds no blank value under a name the loop went through. *)
Lemma pop_fold_subset (l : list string) (d : record) (k : string) (v : value) :
  foldl (fun data ekey => match data !! ekey with
                          | Some x => if is_blank x then delete ekey data else data
                          | None => data
                          end) d l !! k = Some v →
  d !! k = Some v.
Proof.
  revert d. induction l as [|ekey l IH]; intros d; simpl.
  - auto.
  - intros Hk. apply IH in Hk.
    destruct (d !! ekey) as [x|] eqn:Hx; [|exact Hk].
    destruct (is_blank x); [|exact Hk].
    apply lookup_delete_Some in Hk as [_ Hk]. exact Hk.
Qed.

Lemma pop_fold_no_blank (l : list string) (d : record) (k : string) (v : value) :
  k ∈ l →
  foldl (fun data ekey => match data !! ekey with
                          | Some x => if is_blank x then delete ekey data else data
                          | None => data
                          end) d l !! k = Some v →
  is_blank v = false.
Proof.
  revert d. induction l as [|ekey l IH]; intros d Hin; simpl.
  - apply elem_of_nil in Hin. contradiction.
  - intros Hk.
    destruct (decide (k ∈ l)) as [Hl|Hl]; [eapply IH; eassumption|].
    apply elem_of_cons in Hin as [->|Hin]; [|contradiction].
    apply pop_fold_subset in Hk.
    destruct (d !! ekey) as [x|] eqn:Hx.
    + destruct (is_blank x) eqn:Hb.
      * rewrite lookup_delete_eq in Hk. discriminate.
      * rewrite Hx in Hk. injection Hk as <-. exact Hb.
    + rewrite Hx in Hk. discriminate.
Qed.

(** After [pre_save] no field named in [pop_empty] holds an empty string,
    [None] or an empty list: such a field is gone from the record; and
    [logs], which is never empty there, stays even when [pop_empty] names
    it. *)
Theorem pre_save_pops_empty_fields (data d : record) (meta : Meta) (k : string) :
  pre_save self data meta = Ok d →
  k ∈ P.pop_empty p →
  (∀ v, d !! k = Some v → is_blank v = false)
  ∧ is_Some (d !! "logs").
Proof.
  intros Hpre Hin. split.
  - unfold pre_save in Hpre.
    destruct (default (VList []) (run_transformer self data !! "logs")) as [| | | |old|];
      try discriminate.
    injection Hpre as <-. intros v Hv. eapply pop_fold_no_blank; eassumption.
  - apply pre_save_logs in Hpre as [old Hold]. eauto.
Qed.

(** The metadata of a record: the job log wins over the record's own [log]
    field by field, the source is the record's [source] (an empty mapping
    when there is none), and extraction takes the [log] field off the data
    and nothing else, [source] included. *)
Theorem extract_meta_job_log_wins (data d : record) (meta : Meta) :
  extract_meta self data = Ok (meta, d) →
  (∃ l, dictset (default (VDict ∅) (data !! "log")) = Ok l
        ∧ ∀ k, meta_log meta !! k
               = match job_log self !! k with Some v => Some v | None => l !! k end)
  ∧ meta_source meta = default (VDict ∅) (data !! "source")
  ∧ d !! "log" = None
  ∧ ∀ k, k ≠ "log" → d !! k = data !! k.
Proof.
  unfold extract_meta, extract_log.
  destruct (dictset (default (VDict ∅) (data !! "log"))) as [l|e] eqn:Hl;
    simpl; [|discriminate].
  intros [= <- <-]. simpl. split; [|split; [|split]].
  - exists l. split; [reflexivity|]. intros k. apply update_with_defaults_lookup.
  - rewrite lookup_delete_ne by discriminate. reflexivity.
  - apply lookup_delete_eq.
  - intros k Hk. apply lookup_delete_ne. congruence.
Qed.

Lemma for_each_app_run {A} (l1 l2 : list A) (body : A → M B O unit) (w : world B) :
  for_each (l1 ++ l2) body w =
    match for_each l1 body w with
    | (Ok _, w1, t1) => let '(r, w2, t2) := for_each l2 body w1 in (r, w2, t1 ++ t2)
    | (Raise e, w1, t1) => (Raise e, w1, t1)
    end.
Proof.
  revert w. induction l1 as [|x l1 IH]; intros w.
  - simpl. destruct (for_each l2 body w) as [[r w2] t2]. reflexivity.
  - simpl app. rewrite !for_each_cons_run.
    destruct (body x w) as [[[[]|e] w1] t1]; [|reflexivity].
    rewrite IH.
    destruct (for_each l1 body w1) as [[[[]|e] w2] t2]; [|reflexivity].
    destruct (for_each l2 body w2) as [[r w3] t3].
    rewrite app_assoc. reflexivity.
Qed.

(** [process_many] handles the records in order and stops at the first one
    whose processing raises: the records before it are processed, its
    exception is the result, and no later record is looked at, so every
    event of the run comes from the records up to the failing one. *)
Theorem process_many_stops_at_first_error (before after : list record) (bad : record)
    (e : exn) (w w1 w2 : world B) (t1 t2 : list (event O)) :
  process_many self before w = (Ok tt, w1, t1) →
  process self bad w1 = (Raise e, w2, t2) →
  process_many self (before ++ bad :: after) w = (Raise e, w2, t1 ++ t2).
Proof.
  intros Hbefore Hbad. unfold process_many in *.
  rewrite for_each_app_run, Hbefore, for_each_cons_run, Hbad. reflexivity.
Qed.

(** [process_many] on one batch after another is [process_many] on the
    batches joined: a run that completes on the first goes on with the
    second from the world the first left. *)
Theorem process_many_in_batches (first second : list record) (w w1 : world B)
    (t1 : list (event O)) :
  process_many self first w = (Ok tt, w1, t1) →
  process_many self (first ++ second) w
    = let '(r, w2, t2) := process_many self second w1 in (r, w2, t1 ++ t2).
Proof.
  intros Hfirst. unfold process_many in *.
  rewrite for_each_app_run, Hfirst. reflexivity.
Qed.

End MoreEngineFacts.

(** ** Defaults and the split of [op] *)

Section MoreOptionFacts.
Context `{Collaborators}.

(** A declaration touches the mapping at its own name only, and returns the
    unset value for a name the mapping does not hold. *)
Lemma define_op_step {T} (raw : record) (names : list string) (st st' : decl_state)
    (a : accessor T) (name : string) (kw : kwargs T) (r : option T) :
  (∀ k, name_fresh k names = true → st.1 !! k = raw !! k) →
  define_op st a name kw = Ok (r, st') →
  (∀ k, name_fresh k (name :: names) = true → st'.1 !! k = raw !! k)
  ∧ (name_fresh name names = true → raw !! name = None → when_unset kw r).
Proof.
  intros Hinv. destruct st as [params ops]. simpl in *.
  unfold define_op, accessor_call, mbind, result_bind, rbind. simpl.
  assert (Hother : ∀ k v, name_fresh k (name :: names) = true →
                          <[name := v]> params !! k = raw !! k).
  { intros k v Hk. simpl in Hk. apply andb_true_iff in Hk as [Hne Hk].
    apply negb_true_iff, String.eqb_neq in Hne.
    rewrite lookup_insert_ne by assumption. apply Hinv, Hk. }
  destruct (params !! name) as [v|] eqn:Hv.
  - destruct (acc_cast a v) as [t|e]; [|discriminate].
    destruct (_ && _); [discriminate|].
    intros [= <- <-]. simpl. split; [intros k; apply Hother|].
    intros Hfresh Hraw. rewrite <- (Hinv name Hfresh), Hv in Hraw. discriminate.
  - destruct kw as [|d|]; [discriminate| |].
    + intros [= <- <-]. simpl. split; [intros k; apply Hother|]. reflexivity.
    + intros [= <- <-]. simpl. split; [|reflexivity].
      intros k Hk. simpl in Hk. apply andb_true_iff in Hk as [_ Hk]. apply Hinv, Hk.
Qed.

(** An option left out of the configuration takes the default [__init__]
    declares for it, and an optional one stays unset: [keep_ids],
    [flatten], [keep_source_logs], [dry_run] and [log_pretty] are off,
    [overwrite] and [fail_on_error] are on, the list options are empty,
    [log_size] is 256, and [fields], [show_diff], [skip_by], [transformer],
    [source_consolidation_mode], [backend] and [ns] are not set. *)
Theorem init_defaults (raw : record) (job_log : option record) (ops0 ops : gset string)
    (self : Base) (ws : list (level * string)) :
  init raw job_log ops0 = Ok (self, ops, ws) →
  let q := params self in
  (raw !! "keep_ids" = None → P.keep_ids q = false)
  ∧ (raw !! "overwrite" = None → P.overwrite q = true)
  ∧ (raw !! "flatten" = None → P.flatten q = false)
  ∧ (raw !! "append_to" = None → P.append_to q = [])
  ∧ (raw !! "append_to_set" = None → P.append_to_set q = [])
  ∧ (raw !! "normalize" = None → P.normalize q = [])
  ∧ (raw !! "fields" = None → P.fields q = None)
  ∧ (raw !! "pop_empty" = None → P.pop_empty q = [])
  ∧ (raw !! "keep_source_logs" = None → P.keep_source_logs q = false)
  ∧ (raw !! "dry_run" = None → P.dry_run q = false)
  ∧ (raw !! "log_size" = None → P.log_size q = 256%nat)
  ∧ (raw !! "log_fields" = None → P.log_fields q = [])
  ∧ (raw !! "log_pretty" = None → P.log_pretty q = false)
  ∧ (raw !! "fail_on_error" = None → P.fail_on_error q = true)
  ∧ (raw !! "show_diff" = None → P.show_diff q = None)
  ∧ (raw !! "skip_by" = None → P.skip_by q = None)
  ∧ (raw !! "transformer" = None → P.transformer q = None)
  ∧ (raw !! "source_consolidation_mode" = None → P.source_consolidation_mode q = None)
  ∧ (raw !! "backend" = None → P.backend q = None)
  ∧ (raw !! "ns" = None → P.ns q = None)
  ∧ is_Some (raw !! "name")
  ∧ is_Some (raw !! "op").
Proof.
  intros Hinit q. subst q.
  unfold init, mbind, result_bind, rbind in Hinit.
  destruct (declare_ops raw ops0) as [[q st]|e] eqn:Hd; [|discriminate].
  destruct (validate_ops st.2 st.1); [|discriminate].
  destruct (partition (P.op q) ":") as [[o sep] o_params].
  injection Hinit as <- _ _. simpl.
  assert (Hinv : ∀ k, name_fresh k [] = true → (raw, ops0).1 !! k = raw !! k)
    by reflexivity.
  unfold declare_ops, mbind, result_bind, rbind in Hd. cbv beta iota zeta in Hd.
  do 22 on_define_op Hd ltac:(fun E =>
    let F := fresh "F" in
    match type of E with
    | define_op ?s _ _ _ = _ =>
        destruct (define_op_step raw _ s _ _ _ _ _ Hinv E) as [Hinv' F]
    end;
    clear Hinv E; rename Hinv' into Hinv; specialize (F eq_refl)).
  injection Hd as <- _. simpl.
  repeat split;
    try (intros Hraw;
         match goal with
         | F' : raw !! ?n = None → when_unset _ _, Hr : raw !! ?n = None |- _ =>
             specialize (F' Hr); simpl in F'; rewrite F'; reflexivity
         end).
  - destruct (raw !! "name") eqn:Hn; [eauto|]. exfalso.
    match goal with F' : None = None → when_unset Required _ |- _ => exact (F' eq_refl) end.
  - destruct (raw !! "op") eqn:Hn; [eauto|]. exfalso.
    match goal with F' : None = None → when_unset Required _ |- _ => exact (F' eq_refl) end.
Qed.

Lemma substring_all (s : string) : String.substring 0 (String.length s) s = s.
Proof. induction s as [|c s IH]; simpl; [reflexivity|]. rewrite IH. reflexivity. Qed.

Lemma prefix_colon (c : ascii) (s : string) :
  String.prefix ":" (String c s) = Ascii.eqb c ":"%char.
Proof.
  cbn [String.prefix]. destruct (ascii_dec ":" c) as [<-|Hne].
  - destruct s; reflexivity.
  - symmetry. apply Ascii.eqb_neq. congruence.
Qed.

Lemma contains_colon_cons (c : ascii) (s : string) :
  contains ":" (String c s) = if Ascii.eqb c ":"%char then true else contains ":" s.
Proof.
  change (contains ":" (String c s))
    with (if String.prefix ":" (String c s) then true else contains ":" s).
  rewrite prefix_colon. reflexivity.
Qed.

Lemma contains_colon_app (a b : string) :
  contains ":" (a +:+ b) = contains ":" a || contains ":" b.
Proof.
  induction a as [|c a IH].
  - simpl. destruct b; reflexivity.
  - change (String c a +:+ b) with (String c (a +:+ b)).
    rewrite !contains_colon_cons, IH. destruct (Ascii.eqb c ":"); reflexivity.
Qed.

Lemma append_nil_r_string (a : string) : a +:+ "" = a.
Proof.
  induction a as [|x a IH]; [reflexivity|].
  change (String x (a +:+ "") = String x a). f_equal. exact IH.
Qed.

Lemma append_assoc_string (a b c : string) : (a +:+ b) +:+ c = a +:+ (b +:+ c).
Proof.
  induction a as [|x a IH]; [reflexivity|].
  change (String x ((a +:+ b) +:+ c) = String x (a +:+ (b +:+ c))).
  f_equal. exact IH.
Qed.

(** [partition] at a colon: the three parts make up the string again, the
    middle one is the colon or, with the last part, empty, and no colon is
    left in the first part. *)
Lemma partition_from_colon (before s b m a : string) :
  partition_from ":" before s = (b, m, a) →
  before +:+ s = b +:+ m +:+ a
  ∧ (contains ":" before = false → contains ":" b = false)
  ∧ (contains ":" s = true → m = ":")
  ∧ (contains ":" s = false → m = "" ∧ a = "").
Proof.
  revert before. induction s as [|c s IH]; intros before.
  - simpl. intros [= <- <- <-]. repeat split; auto; discriminate.
  - rewrite contains_colon_cons.
    unfold partition_from; fold partition_from.
    rewrite prefix_colon. destruct (Ascii.eqb c ":") eqn:Ec.
    + apply Ascii.eqb_eq in Ec. subst c.
      intros [= <- <- <-]. simpl.
      rewrite Nat.sub_0_r, substring_all.
      repeat split; auto; discriminate.
    + intros Hrec. apply IH in Hrec as (Hcat & Hb & Hm & Ha).
      repeat split.
      * rewrite <- Hcat, append_assoc_string. reflexivity.
      * intros Hbefore. apply Hb. rewrite contains_colon_app, Hbefore.
        rewrite contains_colon_cons, Ec. reflexivity.
      * exact Hm.
      * apply Ha; assumption.
      * apply Ha; assumption.
Qed.

(** [__init__] splits the configured [op] at its first colon: the operation
    kept holds no colon, the key fields are what follows the colon, and the
    two make up the configured string again; an [op] without a colon is the
    operation itself, with no key fields. *)
Theorem init_splits_op (raw : record) (job_log : option record) (ops0 ops : gset string)
    (self : Base) (ws : list (level * string)) (q : P.t) (st : decl_state) :
  declare_ops raw ops0 = Ok (q, st) →
  init raw job_log ops0 = Ok (self, ops, ws) →
  contains ":" (P.op (params self)) = false
  ∧ (contains ":" (P.op q) = true →
     P.op q = P.op (params self) +:+ ":" +:+ P.op_params (params self))
  ∧ (contains ":" (P.op q) = false →
     P.op (params self) = P.op q ∧ P.op_params (params self) = "").
Proof.
  intros Hd Hinit.
  unfold init, mbind, result_bind, rbind in Hinit. rewrite Hd in Hinit.
  destruct (validate_ops st.2 st.1); [|discriminate].
  destruct (partition (P.op q) ":") as [[o sep] o_params] eqn:Hpart.
  injection Hinit as <- _ _. simpl.
  unfold partition in Hpart.
  apply partition_from_colon in Hpart as (Hcat & Hb & Hm & Ha).
  change ("" +:+ P.op q) with (P.op q) in Hcat.
  split; [apply Hb; reflexivity|]. split.
  - intros Hc. rewrite <- (Hm Hc). exact Hcat.
  - intros Hc. destruct (Ha Hc) as [-> ->].
    split; [|reflexivity].
    rewrite Hcat. change ("" +:+ "") with "". symmetry. apply append_nil_r_string.
Qed.

End MoreOptionFacts.

(** ** More on create, lookup and save *)

Section MoreSaveFacts.
Context `{Collaborators} {B O : Type} `{Backend B O}.
Variable self : Base.

#[local] Abbreviation p := (params self).

(** With [skip_by] configured, a record from which the [skip_by] fields
    extract nothing is not created: [create] raises the query error of
    [build_query_params] before any lookup, and nothing is persisted. *)
Theorem create_needs_skip_fields (data : record) (keys : list string) (w : world B) :
  P.skip_by p = Some keys →
  dict_empty (extract_query data keys) = true →
  ∃ msg, create self data w = (Raise (DValueError msg), w, []).
Proof.
  intros Hskip Hempty.
  assert (E : ∃ msg, build_query_params self data keys = Raise (DValueError msg)).
  { unfold build_query_params. rewrite Hempty.
    destruct (bool_decide (keys = [])); eauto. }
  destruct E as [msg E]. exists msg.
  unfold create, skip_query. rewrite Hskip.
  rewrite bind_run, bind_run. unfold lift at 1, mbind at 1, result_bind, rbind.
  rewrite E. reflexivity.
Qed.

(** The static [query] of the configuration is part of every lookup of an
    update, upsert or delete, and wins over the key fields of the record:
    each of its entries, once cast, is in the query handed to the backend,
    the no-limit marker included when the static query sets [_limit]. *)
Theorem static_query_wins (keys : list string) (data static q : record)
    (objects : collection O) (w w1 : world B) (t1 : list (event O)) :
  P.query p = Some static →
  objects_to_update self keys data w = (Ok (q, objects), w1, t1) →
  get_collection q (store w) = Ok objects
  ∧ (∀ k v, typecast static !! k = Some v → q !! k = Some v)
  ∧ (∀ k, typecast static !! k = None →
          ∃ built, build_query_params self data keys = Ok built ∧ q !! k = built !! k).
Proof.
  intros Hq Hobj. unfold objects_to_update in Hobj.
  rewrite bind_run in Hobj.
  assert (L : logs_only (for_each keys (fun kk =>
                 if contains "." kk && negb (P.flatten p)
                 then log WARNING ("Nested key `" +:+ kk +:+ "`? Consider using flatten=1")
                 else mret tt) : M B O unit)).
  { apply logs_only_for_each. intros kk.
    destruct (_ && _); [apply logs_only_log|apply logs_only_ret]. }
  destruct (L w) as (t0 & E0 & _ & _). rewrite E0 in Hobj. clear E0.
  rewrite bind_run in Hobj. unfold lift at 1 in Hobj.
  destruct (build_query_params self data keys) as [built|e]; [|discriminate].
  rewrite Hq in Hobj. rewrite bind_run in Hobj. unfold lookup at 1 in Hobj.
  destruct (get_collection (update_with kw_defaults built (typecast static)) (store w))
    as [c|e] eqn:Hc; [|discriminate].
  cbv beta iota in Hobj. unfold mret, M_mret, M_ret in Hobj.
  injection Hobj as <- <- <- <-.
  split; [exact Hc|]. split.
  - intros k v Hk. rewrite update_with_defaults_lookup, Hk. reflexivity.
  - intros k Hk. exists built. split; [reflexivity|].
    rewrite update_with_defaults_lookup, Hk. reflexivity.
Qed.

(** A record whose [logs] field is not a list cannot be saved: without a
    transformer, [save] raises the attribute error of the failed insertion
    before the persist primitive is called and before anything is logged. *)
Theorem save_needs_list_logs (obj : O) (data : record) (meta : Meta) (v : value)
    (w : world B) :
  P.transformer p = None →
  data !! "logs" = Some v →
  (∀ l, v ≠ VList l) →
  save self obj data meta w
    = (Raise (AttributeError "object has no attribute 'insert'"), w, []).
Proof.
  intros Htrans Hlogs Hv. unfold save.
  rewrite (dict_empty_lookup _ _ _ Hlogs).
  rewrite bind_run. unfold lift, pre_save, run_transformer.
  rewrite Htrans, Hlogs. simpl.
  destruct v; try reflexivity. exfalso. eapply Hv. reflexivity.
Qed.

(** An update keeps the log history of the record it updates.  With the
    incoming [logs] dropped (the default), [flatten] off and no transformer,
    the record persisted for a match whose own [logs] is a list is the
    merged record with the current entry put in front of that list. *)
Theorem update_keeps_target_history (q data d : record) (meta : Meta) (each : O)
    (old : list value) (w : world B) :
  P.keep_source_logs p = false →
  P.flatten p = false →
  P.transformer p = None →
  P.dry_run p = false →
  extract_meta self (delete "logs" data) = Ok (meta, d) →
  to_dict each !! "logs" = Some (VList old) →
  ∃ saved, persisted (update_each self q d meta each w).2 = [(each, saved)]
           ∧ saved !! "logs" = Some (VList (VDict (meta_log meta) :: old)).
Proof.
  intros Hkeep Hflat Htrans Hdry Hmeta Hold.
  assert (Hd : d !! "logs" = None).
  { rewrite (extract_meta_data _ _ _ _ Hmeta).
    rewrite lookup_delete_ne by discriminate. apply lookup_delete_eq. }
  assert (Hm : merged self d meta each !! "logs" = Some (VList old)).
  { unfold merged.
    assert (Hu : update_with (merge_kw_of p) (to_dict each) d !! "logs" = Some (VList old)).
    { unfold update_with, merge_kw_of. simpl. rewrite Hflat.
      rewrite update_plain_lookup, Hd. exact Hold. }
    destruct (P.source_consolidation_mode p); [|exact Hu].
    destruct (truthy _); [|exact Hu].
    rewrite lookup_insert_ne by discriminate. exact Hu. }
  assert (Ht : run_transformer self (merged self d meta each) !! "logs" = Some (VList old)).
  { unfold run_transformer. rewrite Htrans. exact Hm. }
  destruct (pre_save_logs_exact self _ meta old Ht) as (saved & Hpre & Hsaved).
  exists saved. split; [|exact Hsaved].
  destruct (update_each_run self q d meta each w) as (t0 & P0 & _ & E). rewrite E.
  pose proof (save_persisted self each (merged self d meta each) meta w) as Hp.
  rewrite (dict_empty_lookup _ _ _ Hm), Hpre, Hdry in Hp.
  destruct (save self each (merged self d meta each) meta w) as [[[r|e] w'] t];
    simpl in *; rewrite !persisted_app, P0, Hp; reflexivity.
Qed.

End MoreSaveFacts.

(** ** Names: [safe_name], [get_dataset_names] and the CSV header cleaner *)

Section NameFacts.

Lemma all_chars_keep (f : ascii → bool) (s : string) : all_chars f (keep f s) = true.
Proof.
  induction s as [|c s IH]; [reflexivity|]. simpl.
  destruct (f c) eqn:E; [|exact IH]. simpl. rewrite E. exact IH.
Qed.

Lemma all_chars_drop_while (f g : ascii → bool) (s : string) :
  all_chars f s = true → all_chars f (drop_while g s) = true.
Proof.
  induction s as [|c s IH]; [reflexivity|]. simpl. intros Hs.
  apply andb_true_iff in Hs as [Hc Hs].
  destruct (g c); [exact (IH Hs)|]. simpl. rewrite Hc. exact Hs.
Qed.

Lemma drop_while_head (g : ascii → bool) (s : string) (c : ascii) (r : string) :
  drop_while g s = String c r → g c = false.
Proof.
  induction s as [|d s IH]; [discriminate|]. simpl.
  destruct (g d) eqn:E; [exact IH|]. intros [= <- _]. exact E.
Qed.

Lemma keep_fixed (f : ascii → bool) (s : string) : all_chars f s = true → keep f s = s.
Proof.
  induction s as [|c s IH]; [reflexivity|]. simpl. intros Hs.
  apply andb_true_iff in Hs as [-> Hs]. rewrite (IH Hs). reflexivity.
Qed.

Lemma drop_while_empty (g : ascii → bool) (s : string) :
  drop_while g s = "" ↔ all_chars g s = true.
Proof.
  induction s as [|c s IH]; [split; reflexivity|]. simpl.
  destruct (g c); simpl; [exact IH|]. split; discriminate.
Qed.

Lemma keep_all_chars (f g : ascii → bool) (s : string) :
  (∀ c, g c = false → f c = true) →
  all_chars g (keep f s) = all_chars g s.
Proof.
  intros Hfg. induction s as [|c s IH]; [reflexivity|]. simpl.
  destruct (f c) eqn:E; simpl; rewrite IH; [reflexivity|].
  destruct (g c) eqn:Eg; [reflexivity|]. rewrite (Hfg c Eg) in E. discriminate.
Qed.

Lemma name_start_is_word (c : ascii) : is_name_start c = true → is_word c = true.
Proof.
  unfold is_name_start, is_word. intros Hc.
  destruct (is_digit c); [reflexivity|]. exact Hc.
Qed.

(** X: a safe name is empty or a valid identifier: every character of
    [safe_name name] is a letter, a digit or an underscore, and the first
    one, when there is one, is no digit. *)
Theorem safe_name_is_identifier (name : string) :
  all_chars is_word (Mongosets.safe_name name) = true
  ∧ match Mongosets.safe_name name with
    | EmptyString => True
    | String c _ => is_name_start c = true
    end.
Proof.
  unfold Mongosets.safe_name. split.
  - apply all_chars_drop_while, all_chars_keep.
  - destruct (drop_while _ _) as [|c r] eqn:E; [exact I|].
    apply drop_while_head in E. apply negb_false_iff in E. exact E.
Qed.

(** X: [safe_name] is idempotent: a name that went through it is left as
    it is by a second pass, so registering and looking up under an already
    safe name address the same attribute. *)
Theorem safe_name_idempotent (name : string) :
  Mongosets.safe_name (Mongosets.safe_name name) = Mongosets.safe_name name.
Proof.
  assert (Hw : all_chars is_word (Mongosets.safe_name name) = true).
  { unfold Mongosets.safe_name. apply all_chars_drop_while, all_chars_keep. }
  unfold Mongosets.safe_name at 1. rewrite (keep_fixed _ _ Hw).
  unfold Mongosets.safe_name.
  destruct (drop_while _ (keep is_word name)) as [|c r] eqn:E; [reflexivity|].
  apply drop_while_head in E. simpl. rewrite E. reflexivity.
Qed.

(** X: the safe name is empty exactly for a name without a letter or an
    underscore: a name made of digits and punctuation only, such as a
    namespace ["2024"], has no safe name. *)
Theorem safe_name_empty_iff (name : string) :
  Mongosets.safe_name name = ""
  ↔ all_chars (fun c => negb (is_name_start c)) name = true.
Proof.
  unfold Mongosets.safe_name. rewrite drop_while_empty.
  rewrite keep_all_chars; [reflexivity|].
  intros c Hc. apply negb_false_iff in Hc. apply name_start_is_word, Hc.
Qed.

Lemma prefix_all_chars (f : ascii → bool) (a b : string) :
  String.prefix a b = true → all_chars f b = true → all_chars f a = true.
Proof.
  revert b. induction a as [|c a IH]; intros b Hp Hb; [reflexivity|].
  destruct b as [|d b]; [discriminate|]. cbn [String.prefix] in Hp.
  destruct (ascii_dec c d) as [->|]; [|discriminate].
  simpl in *. apply andb_true_iff in Hb as [-> Hb]. exact (IH b Hp Hb).
Qed.

Lemma contains_all_chars (f : ascii → bool) (sub s : string) :
  contains sub s = true → all_chars f s = true → all_chars f sub = true.
Proof.
  induction s as [|c s IH]; intros Hc Hs.
  - destruct sub; [reflexivity|discriminate].
  - change (contains sub (String c s))
      with (if String.prefix sub (String c s) then true else contains sub s) in Hc.
    destruct (String.prefix sub (String c s)) eqn:Hp.
    + exact (prefix_all_chars f _ _ Hp Hs).
    + simpl in Hs. apply andb_true_iff in Hs as [_ Hs]. exact (IH Hc Hs).
Qed.

Lemma lower_char_not_upper (c : ascii) : is_upper (lower_char c) = false.
Proof. destruct c as [[] [] [] [] [] [] [] []]; vm_compute; reflexivity. Qed.

Lemma lower_not_upper (s : string) : all_chars (fun c => negb (is_upper c)) (lower s) = true.
Proof.
  induction s as [|c s IH]; [reflexivity|]. simpl.
  rewrite lower_char_not_upper, IH. reflexivity.
Qed.

(** X: the name pattern of [get_dataset_names] is compared with the
    lower-cased collection name but is not lower-cased itself: a pattern
    with a capital letter lists nothing, whatever the databases hold. *)
Theorem capital_pattern_lists_nothing (dbs : list (string * list string))
    (match_name match_namespace : string) :
  all_chars (fun c => negb (is_upper c)) match_name = false →
  Mongosets.get_dataset_names dbs match_name match_namespace = [].
Proof.
  intros Hup. unfold Mongosets.get_dataset_names.
  induction dbs as [|[namespace names] dbs IH]; [reflexivity|].
  simpl. rewrite IH, app_nil_r.
  destruct (_ || _); [|reflexivity].
  induction names as [|name names IHn]; [reflexivity|].
  rewrite filter_cons. destruct (decide _) as [[Hc _]|_]; [|exact IHn].
  rewrite (contains_all_chars _ _ _ Hc (lower_not_upper name)) in Hup.
  discriminate.
Qed.

(** X: what [get_dataset_names] lists: each entry names its collection
    twice, the collection is one of a connected namespace, it is not a
    [system.] collection, and with a namespace pattern every entry is of
    that namespace. *)
Theorem listed_names_are_user_collections (dbs : list (string * list string))
    (match_name match_namespace namespace name cls : string) :
  (namespace, name, cls) ∈ Mongosets.get_dataset_names dbs match_name match_namespace →
  cls = name
  ∧ (∃ names, (namespace, names) ∈ dbs ∧ name ∈ names)
  ∧ String.prefix "system." name = false
  ∧ (match_namespace = "" ∨ match_namespace = namespace).
Proof.
  unfold Mongosets.get_dataset_names. intros Hin.
  apply list_elem_of_In, in_flat_map in Hin as [[ns names] [Hdb Hin]].
  apply list_elem_of_In in Hdb.
  destruct (_ || _) eqn:Hns; [|inversion Hin].
  apply list_elem_of_In, list_elem_of_fmap in Hin as (n & [= -> -> ->] & Hn).
  apply list_elem_of_filter in Hn as [[_ Hsys] Hn].
  split; [reflexivity|]. split; [eauto|]. split; [exact Hsys|].
  apply orb_true_iff in Hns as [Hns|Hns].
  - apply andb_true_iff in Hns as [_ Hns]. right. apply String.eqb_eq, Hns.
  - left. apply String.eqb_eq, Hns.
Qed.

Lemma lower_char_clean (c : ascii) :
  c ∉ Csv.unders ++ Csv.removes → lower_char c ∉ Csv.unders ++ Csv.removes.
Proof.
  intros Hc.
  assert (E : bool_decide (c ∈ Csv.unders ++ Csv.removes) = false)
    by (apply bool_decide_eq_false_2, Hc).
  apply (bool_decide_eq_false_1 (lower_char c ∈ Csv.unders ++ Csv.removes)).
  clear Hc. revert E.
  destruct c as [[] [] [] [] [] [] [] []]; vm_compute; intros E;
    first [reflexivity | discriminate E].
Qed.

(** X: a cleaned CSV header has none of the characters the cleaner
    targets: no space, comma or newline, no parenthesis or slash, and no
    capital letter. *)
Theorem cleaned_header_chars (text : string) :
  all_chars (fun c => bool_decide (c ∉ Csv.unders ++ Csv.removes) && negb (is_upper c))
            (Csv._n text) = true.
Proof.
  unfold Csv._n. generalize (strip text) as s.
  induction s as [|ch s IH]; [reflexivity|]. cbn [Csv.scrub].
  case_bool_decide as Hu.
  - cbn [lower all_chars]. rewrite IH. reflexivity.
  - case_bool_decide as Hr; [exact IH|]. cbn [lower all_chars].
    rewrite lower_char_not_upper, IH.
    rewrite bool_decide_eq_true_2; [reflexivity|].
    apply lower_char_clean. rewrite elem_of_app. tauto.
Qed.

Lemma clean_fold (cells : list (string * value)) (acc : record) (name : string) :
  foldl (fun n_dict '(kk, vv) => <[Csv._n kk := vv]> n_dict) acc cells !! name
  = match last (filter (fun kv => Csv._n kv.1 = name) cells) with
    | Some kv => Some kv.2
    | None => acc !! name
    end.
Proof.
  revert acc. induction cells as [|[kk vv] cells IH]; intros acc; [reflexivity|].
  simpl. rewrite IH, filter_cons. simpl.
  destruct (decide (Csv._n kk = name)) as [<-|Hne].
  - rewrite last_cons. destruct (last _); [reflexivity|].
    simpl. apply lookup_insert_eq.
  - destruct (last _); [reflexivity|]. apply lookup_insert_ne, Hne.
Qed.

(** X: when the headers of a row are cleaned, columns whose headers clean
    to the same name collapse into one field, and the last such column
    wins: the cleaned row maps a name to the value of the last column
    whose cleaned header is that name, and has no other field. *)
Theorem clean_last_column_wins (cells : list (string * value)) (name : string) :
  Csv.clean cells !! name
  = snd <$> last (filter (fun kv => Csv._n kv.1 = name) cells).
Proof.
  unfold Csv.clean. rewrite clean_fold.
  destruct (last _); reflexivity.
Qed.

End NameFacts.
